(** * nl-camel: newsletter scanner ([app.py]) and registration bot
    ([register_newsletters.py])

    A shallow embedding of the two Python programs.  Pure Python code is
    written as Rocq functions; the network, the random generator, the
    clock and the disk are explicit parameters; the files and the counters
    are explicit state; an exception that leaves a function is a result of
    its own.  Python [str] values are [string]s: ASCII text is represented
    exactly, other text by its bytes (which [lower] leaves alone). *)

From Stdlib Require Import String Ascii List ZArith Bool Arith Lia Permutation.
From Stdlib Require Import DecimalString DecimalPos DecimalZ.
Import ListNotations.
Local Open Scope list_scope.
Local Open Scope string_scope.
Set Warnings "-register-all,-notation-for-abbreviation".

(* ================================================================== *)
(** * Python built-ins used by both programs *)

Module Py.

(** [c.lower()] on one character. *)
Definition lower_char (c : ascii) : ascii :=
  let n := nat_of_ascii c in
  if (65 <=? n)%nat && (n <=? 90)%nat then ascii_of_nat (n + 32) else c.

(** [s.lower()] *)
Fixpoint lower (s : string) : string :=
  match s with
  | EmptyString => EmptyString
  | String c s' => String (lower_char c) (lower s')
  end.

(** [kw in s] for two [str] values. *)
Fixpoint contains (kw s : string) : bool :=
  String.prefix kw s ||
  match s with
  | EmptyString => false
  | String _ s' => contains kw s'
  end.

(** What [kw in s] decides: [kw] occurs somewhere in [s]. *)
Definition occurs_in (kw s : string) : Prop :=
  exists before after, s = before ++ kw ++ after.

(** [any(kw in s for kw in kws)] *)
Definition any_in (kws : list string) (s : string) : bool :=
  existsb (fun kw => contains kw s) kws.

(** [x in xs] for a list of [str]. *)
Definition mem (x : string) (xs : list string) : bool :=
  existsb (String.eqb x) xs.

(** Truth value of a [str]: the empty string is false. *)
Definition truthy (s : string) : bool :=
  match s with EmptyString => false | _ => true end.

(** [sep.join(xs)] *)
Definition join (sep : string) (xs : list string) : string :=
  String.concat sep xs.

(** [s.split(sep)] for a one-character separator: the pieces between
    the separators, empty pieces included. *)
Fixpoint split_aux (sep : ascii) (acc : string) (s : string) : list string :=
  match s with
  | EmptyString => [acc]
  | String c s' =>
      if Ascii.eqb c sep then acc :: split_aux sep EmptyString s'
      else split_aux sep (acc ++ String c EmptyString) s'
  end.

Definition split (sep : ascii) (s : string) : list string :=
  split_aux sep EmptyString s.

(** [s[:n]] *)
Fixpoint take (n : nat) (s : string) : string :=
  match n, s with
  | S n', String c s' => String c (take n' s')
  | _, _ => EmptyString
  end.

(** A [set] of [str], kept as a duplicate-free list; [set_add] is
    [s.add(x)]. *)
Definition set_add (x : string) (s : list string) : list string :=
  if mem x s then s else (s ++ [x])%list.

(** [sorted(xs)] for [str] elements (code-point order). *)
Fixpoint insert_sorted (x : string) (xs : list string) : list string :=
  match xs with
  | [] => [x]
  | y :: ys => if String.leb x y then x :: xs else y :: insert_sorted x ys
  end.

Definition sorted (xs : list string) : list string :=
  fold_right insert_sorted [] xs.

(** White space as [str.strip] sees it in ASCII text: space, tab, line
    feed, vertical tab, form feed, carriage return and the four
    separators 0x1c-0x1f. *)
Definition is_space (c : ascii) : bool :=
  let n := nat_of_ascii c in
  (n =? 32)%nat || ((9 <=? n)%nat && (n <=? 13)%nat)
  || ((28 <=? n)%nat && (n <=? 31)%nat).

Fixpoint lstrip (s : string) : string :=
  match s with
  | String c s' => if is_space c then lstrip s' else s
  | EmptyString => EmptyString
  end.

Fixpoint rstrip (s : string) : string :=
  match s with
  | EmptyString => EmptyString
  | String c s' =>
      match rstrip s' with
      | EmptyString => if is_space c then EmptyString else String c EmptyString
      | r => String c r
      end
  end.

(** [s.strip()] *)
Definition strip (s : string) : string := rstrip (lstrip s).

(** A [dict] with [str] keys, in insertion order.  [dict_set] is
    [d[k] = v]: an existing key keeps its place. *)
Definition dict (V : Type) : Type := list (string * V).

Fixpoint dict_get {V : Type} (d : dict V) (k : string) : option V :=
  match d with
  | [] => None
  | (k', v) :: d' => if String.eqb k k' then Some v else dict_get d' k
  end.

Fixpoint dict_set {V : Type} (d : dict V) (k : string) (v : V) : dict V :=
  match d with
  | [] => [(k, v)]
  | (k', v') :: d' =>
      if String.eqb k k' then (k', v) :: d' else (k', v') :: dict_set d' k v
  end.

(** [k in d] *)
Definition has_key {V : Type} (d : dict V) (k : string) : bool :=
  match dict_get d k with Some _ => true | None => false end.

(** [d.get(k, default)] *)
Definition get_default {V : Type} (d : dict V) (k : string) (default : V) : V :=
  match dict_get d k with Some v => v | None => default end.

(** [str(b)] for a [bool]. *)
Definition str_bool (b : bool) : string := if b then "True" else "False".

End Py.

(* ================================================================== *)
(** * The parsed document (BeautifulSoup) *)

Module Soup.

(** A page element: a text string, a comment, or a tag with its
    attributes and contents.  The document itself is a tag. *)
Inductive Node : Type :=
| NavigableString (s : string)
| Comment (s : string)
| Tag (name : string) (attrs : Py.dict string) (contents : list Node).

(** [tag.descendants]: every element below a tag, in document order. *)
Fixpoint descendants (n : Node) : list Node :=
  match n with
  | Tag _ _ cs => flat_map (fun c => c :: descendants c) cs
  | _ => []
  end.

(** [tag.get(key, default)] and [tag.get(key)]. *)
Definition get (n : Node) (key default : string) : string :=
  match n with
  | Tag _ attrs _ => Py.get_default attrs key default
  | _ => default
  end.

Definition get_opt (n : Node) (key : string) : option string :=
  match n with
  | Tag _ attrs _ => Py.dict_get attrs key
  | _ => None
  end.

(** Does an element pass [find_all(names, attrs)]: it is a tag named
    by one of [names] and carries each attribute of [attrs] with that
    very value. *)
Definition matches (names : list string) (attrs : Py.dict string) (n : Node) : bool :=
  match n with
  | Tag name tattrs _ =>
      Py.mem name names &&
      forallb (fun kv =>
                 match Py.dict_get tattrs (fst kv) with
                 | Some v => String.eqb v (snd kv)
                 | None => false
                 end) attrs
  | _ => false
  end.

(** [tag.find_all(names, attrs)] *)
Definition find_all (names : list string) (attrs : Py.dict string) (n : Node) : list Node :=
  filter (matches names attrs) (descendants n).

(** The text strings below a tag, in document order (comments are not
    text). *)
Definition strings (n : Node) : list string :=
  flat_map (fun d => match d with NavigableString s => [s] | _ => [] end)
           (descendants n).

(** [tag.get_text(separator)] *)
Definition get_text (separator : string) (n : Node) : string :=
  Py.join separator (strings n).

(** Output formatting of [str(tag)]: the minimal entity substitution. *)
Fixpoint escape (s : string) : string :=
  match s with
  | EmptyString => EmptyString
  | String c s' =>
      (if Ascii.eqb c "&" then "&amp;"
       else if Ascii.eqb c "<" then "&lt;"
       else if Ascii.eqb c ">" then "&gt;"
       else String c EmptyString) ++ escape s'
  end.

Fixpoint replace_dquote (s : string) : string :=
  match s with
  | EmptyString => EmptyString
  | String c s' =>
      (if Ascii.eqb c (ascii_of_nat 34) then "&quot;" else String c EmptyString)
      ++ replace_dquote s'
  end.

Definition dquote : string := String (ascii_of_nat 34) EmptyString.
Definition squote : string := String (ascii_of_nat 39) EmptyString.

Definition quoted_attribute_value (v : string) : string :=
  if Py.contains dquote v then
    if Py.contains squote v then dquote ++ replace_dquote v ++ dquote
    else squote ++ v ++ squote
  else dquote ++ v ++ dquote.

Definition render_attrs (attrs : Py.dict string) : string :=
  String.concat ""
    (map (fun kv => " " ++ fst kv ++ "=" ++ quoted_attribute_value (escape (snd kv)))
         attrs).

(** Tags the HTML tree builder writes as [<name/>] when they are empty. *)
Definition void_elements : list string :=
  ["area"; "base"; "br"; "col"; "embed"; "hr"; "img"; "input"; "keygen";
   "link"; "menuitem"; "meta"; "param"; "source"; "track"; "wbr";
   "basefont"; "bgsound"; "command"; "frame"; "image"; "isindex";
   "nextid"; "spacer"].

(** [str(tag)] *)
Fixpoint render (n : Node) : string :=
  match n with
  | NavigableString s => escape s
  | Comment s => "<!--" ++ s ++ "-->"
  | Tag name attrs cs =>
      match cs with
      | [] =>
          if Py.mem name void_elements
          then "<" ++ name ++ render_attrs attrs ++ "/>"
          else "<" ++ name ++ render_attrs attrs ++ "></" ++ name ++ ">"
      | _ =>
          "<" ++ name ++ render_attrs attrs ++ ">"
          ++ String.concat "" (map render cs)
          ++ "</" ++ name ++ ">"
      end
  end.

End Soup.

(* ================================================================== *)
(** * Regular expressions, as far as the scanner's patterns use them *)

Module Re.

(** The patterns are sequences of literal characters and [.], each
    possibly followed by [*]. *)
Inductive Atom : Type :=
| AnyChar
| Lit (c : ascii).

Definition Item : Type := (Atom * bool)%type.

Definition newline : ascii := ascii_of_nat 10.

(** [.] matches every character but a line feed. *)
Definition atom_matches (a : Atom) (c : ascii) : bool :=
  match a with
  | AnyChar => negb (Ascii.eqb c newline)
  | Lit l => Ascii.eqb c l
  end.

Definition atom_of (c : ascii) : Atom :=
  if Ascii.eqb c "." then AnyChar else Lit c.

(** Reading a pattern. *)
Fixpoint compile (p : string) : list Item :=
  match p with
  | EmptyString => []
  | String c p' =>
      match p' with
      | String "*"%char p'' => (atom_of c, true) :: compile p''
      | _ => (atom_of c, false) :: compile p'
      end
  end.

(** Does the pattern match at the start of [s]? *)
Fixpoint match_here (items : list Item) : string -> bool :=
  match items with
  | [] => fun _ => true
  | (a, false) :: rest =>
      fun s =>
        match s with
        | EmptyString => false
        | String c s' => atom_matches a c && match_here rest s'
        end
  | (a, true) :: rest =>
      fix star (s : string) : bool :=
        match_here rest s ||
        match s with
        | EmptyString => false
        | String c s' => atom_matches a c && star s'
        end
  end.

Fixpoint search_items (items : list Item) (s : string) : bool :=
  match_here items s ||
  match s with
  | EmptyString => false
  | String _ s' => search_items items s'
  end.

(** [re.search(pattern, text)] as a truth value. *)
Definition search (pattern text : string) : bool :=
  search_items (compile pattern) text.

End Re.

(* ================================================================== *)
(** * app.py: the scanner *)

Module App.

Import Py Soup.

Definition NEWSLETTER_KEYWORDS : list string :=
  ["newsletter"; "subscribe"; "subscription"; "sign up"; "signup";
   "join our"; "mailing list"; "email updates"; "get updates";
   "stay updated"; "weekly digest"].

Definition newsletter_patterns : list string :=
  ["newsletter.*sign.*up"; "subscribe.*newsletter"; "join.*mailing.*list";
   "email.*subscription"; "get.*weekly.*digest"].

Definition newsletter_services : list string :=
  ["mailchimp"; "substack"; "convertkit"; "buttondown";
   "revue"; "tinyletter"; "sendinblue"; "getresponse"].

(** The two accumulators of [detect_newsletter]: [signals] and
    [confidence]. *)
Definition Score : Type := (list string * Z)%type.

(** [signals.add(sig); confidence += w] *)
Definition hit (sig : string) (w : Z) (sc : Score) : Score :=
  (set_add sig (fst sc), (snd sc + w)%Z).

(** The body of the loop over the forms of the page. *)
Definition scan_form (sc : Score) (form : Node) : Score :=
  let email_inputs := find_all ["input"] [("type", "email")] form in
  let text_inputs := find_all ["input"] [("type", "text")] form in
  let sc := match email_inputs with
            | [] => sc
            | _ => hit "form:email_input_type" 30 sc
            end in
  let sc := fold_left
              (fun sc inp =>
                 let name := lower (get inp "name" "" ++ get inp "id" ""
                                    ++ get inp "placeholder" "") in
                 if any_in ["email"; "mail"; "e-mail"] name
                 then hit "form:email_named_input" 25 sc else sc)
              text_inputs sc in
  let action := lower (get form "action" "") in
  let sc := if any_in ["subscribe"; "newsletter"; "signup"; "join"; "register"] action
            then hit "form:newsletter_action" 20 sc else sc in
  let buttons := find_all ["button"; "input"] [] form in
  fold_left
    (fun sc btn =>
       let btn_text := lower (get btn "value" "" ++ get_text "" btn) in
       if any_in NEWSLETTER_KEYWORDS btn_text
       then hit "form:newsletter_button" 15 sc else sc)
    buttons sc.

Definition scan_patterns (text : string) (sc : Score) : Score :=
  fold_left
    (fun sc pattern =>
       if Re.search pattern text
       then hit ("pattern:" ++ take 20 pattern) 10 sc else sc)
    newsletter_patterns sc.

Definition scan_services (html_lower : string) (sc : Score) : Score :=
  fold_left
    (fun sc service =>
       if contains service html_lower
       then hit ("service:" ++ service) 25 sc else sc)
    newsletter_services sc.

Definition scan_iframes (soup : Node) (sc : Score) : Score :=
  fold_left
    (fun sc iframe =>
       let src := lower (get iframe "src" "") in
       if any_in newsletter_services src
       then hit "iframe:newsletter_widget" 20 sc else sc)
    (find_all ["iframe"] [] soup) sc.

Section Detection.

(** [BeautifulSoup(html, "lxml")]: the HTML parser. *)
Variable parse : string -> Node.

(** [detect_newsletter(html, url)] returns
    [(has_newsletter, confidence, signals)]. *)
Definition detect_newsletter (html url : string) : bool * Z * string :=
  let soup := parse html in
  let text := lower (get_text " " soup) in
  let sc : Score := ([], 0%Z) in
  let sc := fold_left scan_form (find_all ["form"] [] soup) sc in
  let sc := scan_patterns text sc in
  let html_lower := lower html in
  let sc := scan_services html_lower sc in
  let sc := scan_iframes soup sc in
  let confidence := snd sc in
  let has_newsletter := (30 <=? confidence)%Z in
  (has_newsletter, confidence, join ";" (sorted (fst sc))).

End Detection.

(** The components of the value [detect_newsletter] returns. *)
Definition classified (d : bool * Z * string) : bool := fst (fst d).
Definition confidence_of (d : bool * Z * string) : Z := snd (fst d).
Definition signals_of (d : bool * Z * string) : string := snd d.

(** [str(n)] for an [int]. *)
Definition str_int (n : Z) : string := NilZero.string_of_int (Z.to_int n).

(** What [requests.get] comes back with. *)
Record Response : Type := {
  status_code : Z;
  r_url : string;
  r_text : string
}.

Inductive GetOutcome : Type :=
| Returned (r : Response)
| RequestException
| OtherException.

(** The dictionary [analyze_domain] returns. *)
Module Result.
Record t : Type := {
  domain : string;
  url : string;
  has_newsletter : bool;
  confidence : Z;
  signals : string;
  found_paths : string
}.
End Result.

(** The local variables of [analyze_domain] that the loop updates. *)
Record Explore : Type := {
  all_signals : list string;
  successful_url : option string;
  max_confidence : Z;
  found_paths : list string
}.

Definition explore_init : Explore :=
  {| all_signals := []; successful_url := None;
     max_confidence := 0%Z; found_paths := [] |}.

(** How one turn of the loop ends: [continue] or falling through,
    [break], or an exception that leaves the function. *)
Inductive Control : Type :=
| Next
| Break
| Raise.

Definition paths_to_check : list string :=
  ["/"; "/newsletter"; "/subscribe"; "/contact"; "/about"].

(** Truth value of [successful_url] ([None] or a [str]). *)
Definition url_truthy (u : option string) : bool :=
  match u with
  | Some s => truthy s
  | None => false
  end.

Record Stats : Type := {
  processed : Z;
  with_newsletter : Z;
  without_newsletter : Z;
  errors : Z
}.

(** [update_stats(has_newsletter, error)], inside its lock. *)
Definition update_stats (has_newsletter error : bool) (stats : Stats) : Stats :=
  let stats := {| processed := processed stats + 1;
                  with_newsletter := with_newsletter stats;
                  without_newsletter := without_newsletter stats;
                  errors := errors stats |}%Z in
  if error then
    {| processed := processed stats;
       with_newsletter := with_newsletter stats;
       without_newsletter := without_newsletter stats;
       errors := errors stats + 1 |}%Z
  else if has_newsletter then
    {| processed := processed stats;
       with_newsletter := with_newsletter stats + 1;
       without_newsletter := without_newsletter stats;
       errors := errors stats |}%Z
  else
    {| processed := processed stats;
       with_newsletter := with_newsletter stats;
       without_newsletter := without_newsletter stats + 1;
       errors := errors stats |}%Z.

(** The mutable state shared by the workers: the counters and the
    rows of [CSV_FILE]. *)
Record Shared : Type := {
  stats : Stats;
  csv_file : list (list string)
}.

(** [init_csv()] *)
Definition init_csv : list (list string) :=
  [["timestamp"; "domain"; "url"; "has_newsletter"; "confidence_score";
    "signals_found"; "found_newsletter_path"]].

(** [append_csv(row)], inside its lock; [now] is
    [datetime.utcnow().isoformat()]. *)
Definition append_csv (now : string) (row : Result.t) (file : list (list string))
  : list (list string) :=
  (file ++ [[now; Result.domain row; Result.url row;
             str_bool (Result.has_newsletter row);
             str_int (Result.confidence row);
             Result.signals row; Result.found_paths row]])%list.

(** [if not successful_url: successful_url = r.url] *)
Definition with_url (st : Explore) (r : Response) : Explore :=
  if negb (url_truthy (successful_url st))
  then {| all_signals := all_signals st;
          successful_url := Some (r_url r);
          max_confidence := max_confidence st;
          found_paths := found_paths st |}
  else st.

Section Crawl.

Variable parse : string -> Node.

(** The outside world: the network as [requests.get] reaches it and
    the clock. *)
Variable World : Type.
Variable requests_get : string -> World -> GetOutcome * World.
Variable utcnow : World -> string.

(** The body of the loop over [paths_to_check]. *)
Definition visit (domain path : string) (st : Explore) (w : World)
  : Control * Explore * World :=
  let base_url := "https://" ++ domain in
  let url := base_url ++ path in
  match requests_get url w with
  | (RequestException, w') => (Next, st, w')
  | (OtherException, w') => (Raise, st, w')
  | (Returned r, w') =>
      if (400 <=? status_code r)%Z then (Next, st, w')
      else
        let st := with_url st r in
        let '(has_newsletter, confidence, signals) :=
          detect_newsletter parse (r_text r) (r_url r) in
        if has_newsletter && (max_confidence st <? confidence)%Z then
          let st :=
            {| all_signals :=
                 fold_left
                   (fun acc signal =>
                      if truthy signal
                      then set_add (path ++ ":" ++ signal) acc else acc)
                   (split ";" signals) (all_signals st);
               successful_url := successful_url st;
               max_confidence := confidence;
               found_paths := set_add path (found_paths st) |} in
          if String.eqb path "/" && (50 <=? confidence)%Z
          then (Break, st, w')
          else (Next, st, w')
        else (Next, st, w')
  end.

(** The loop.  Besides the way it ended and the final variables it
    returns the paths it requested, in order. *)
Fixpoint explore (domain : string) (paths : list string) (st : Explore)
  (w : World) : Control * Explore * World * list string :=
  match paths with
  | [] => (Next, st, w, [])
  | path :: rest =>
      match visit domain path st w with
      | (Next, st', w') =>
          let '(c, st'', w'', seen) := explore domain rest st' w' in
          (c, st'', w'', path :: seen)
      | (c, st', w') => (c, st', w', [path])
      end
  end.

(** Every request of the loop over [paths], started in [w], fails:
    it raises or answers with a status of 400 or more. *)
Fixpoint all_fail (domain : string) (paths : list string) (w : World) : Prop :=
  match paths with
  | [] => True
  | path :: rest =>
      match requests_get (("https://" ++ domain) ++ path) w with
      | (Returned r, w') => (400 <= status_code r)%Z /\ all_fail domain rest w'
      | (RequestException, w') => all_fail domain rest w'
      | (OtherException, _) => True
      end
  end.

(** The URL of the first reply with a status below 400 among the
    requests for [paths], made one after the other from [w]. *)
Fixpoint first_success (domain : string) (paths : list string) (w : World)
  : option string :=
  match paths with
  | [] => None
  | path :: rest =>
      match requests_get (("https://" ++ domain) ++ path) w with
      | (Returned r, w') =>
          if (400 <=? status_code r)%Z then first_success domain rest w'
          else Some (r_url r)
      | (RequestException, w') => first_success domain rest w'
      | (OtherException, _) => None
      end
  end.

(** [analyze_domain(domain)]: [None] when an exception other than
    [RequestException] escapes, otherwise the returned value
    ([Some None] is Python's [None]). *)
Definition analyze_domain (domain : string) (w : World)
  : option (option Result.t) * World :=
  match explore domain paths_to_check explore_init w with
  | (Raise, _, w', _) => (None, w')
  | (_, st, w', _) =>
      match successful_url st with
      | Some u =>
          if truthy u then
            (Some (Some
               {| Result.domain := domain;
                  Result.url := u;
                  Result.has_newsletter := (30 <=? max_confidence st)%Z;
                  Result.confidence := max_confidence st;
                  Result.signals :=
                    match all_signals st with
                    | [] => ""
                    | _ => join ";" (sorted (all_signals st))
                    end;
                  Result.found_paths :=
                    match found_paths st with
                    | [] => ""
                    | _ => join ";" (sorted (found_paths st))
                    end |}), w')
          else (Some None, w')
      | None => (Some None, w')
      end
  end.

(** [process_domain(domain)] *)
Definition process_domain (domain : string) (sh : Shared) (w : World)
  : option Result.t * Shared * World :=
  match analyze_domain domain w with
  | (Some (Some result), w') =>
      let file := append_csv (utcnow w') result (csv_file sh) in
      let st := update_stats (Result.has_newsletter result) false (stats sh) in
      (Some result, {| stats := st; csv_file := file |}, w')
  | (Some None, w') =>
      (None, {| stats := update_stats false true (stats sh);
                csv_file := csv_file sh |}, w')
  | (None, w') =>
      (None, {| stats := update_stats false true (stats sh);
                csv_file := csv_file sh |}, w')
  end.

End Crawl.

End App.

(* ================================================================== *)
(** * register_newsletters.py: the registration bot *)

Module Register.

Import Py Soup.

(** ** [random.shuffle]

    The generator is a tape of draws: [randbelow n] reduces the next
    draw modulo [n]. *)
Definition Tape : Type := list nat.

Definition randbelow (n : nat) (t : Tape) : nat * Tape :=
  match t with
  | [] => (0, [])
  | d :: t' => (d mod n, t')
  end.

Fixpoint list_set {A : Type} (i : nat) (v : A) (x : list A) : list A :=
  match x, i with
  | [], _ => []
  | _ :: x', 0 => v :: x'
  | a :: x', S i' => a :: list_set i' v x'
  end.

(** [x[i], x[j] = x[j], x[i]] *)
Definition swap {A : Type} (i j : nat) (x : list A) : list A :=
  match nth_error x i, nth_error x j with
  | Some a, Some b => list_set j a (list_set i b x)
  | _, _ => x
  end.

(** The turns [i], [i-1], ..., [1] of the loop of [shuffle]. *)
Fixpoint shuffle_from {A : Type} (i : nat) (x : list A) (t : Tape)
  : list A * Tape :=
  match i with
  | 0 => (x, t)
  | S i' =>
      let '(j, t') := randbelow (i + 1) t in
      shuffle_from i' (swap i j x) t'
  end.

(** [random.shuffle(x)] *)
Definition shuffle {A : Type} (x : list A) (t : Tape) : list A * Tape :=
  shuffle_from (length x - 1) x t.

Definition shuffle3 {A : Type} (x : list A) (t : Tape) : list A * Tape :=
  let '(x, t) := shuffle x t in
  let '(x, t) := shuffle x t in
  shuffle x t.

(** ** [load_emails]

    [file] is the list of lines of [EMAILS_FILE], [None] when the file
    does not exist. *)
Definition stripped_lines (lines : list string) : list string :=
  map strip (filter (fun line => truthy (strip line)) lines).

Definition load_emails (file : option (list string)) (t : Tape)
  : list string * Tape :=
  match file with
  | Some lines => shuffle3 (stripped_lines lines) t
  | None => ([], t)
  end.

(** ** [int(s)] for a [str]: [None] stands for [ValueError]. *)
Definition digit_val (c : ascii) : option Z :=
  let n := nat_of_ascii c in
  if (48 <=? n)%nat && (n <=? 57)%nat then Some (Z.of_nat (n - 48)) else None.

Fixpoint parse_digits (acc : Z) (after_digit : bool) (s : string) : option Z :=
  match s with
  | EmptyString => if after_digit then Some acc else None
  | String c s' =>
      if Ascii.eqb c "_" then
        if after_digit then parse_digits acc false s' else None
      else
        match digit_val c with
        | Some d => parse_digits (10 * acc + d)%Z true s'
        | None => None
        end
  end.

Definition int (s : string) : option Z :=
  match strip s with
  | String "-"%char s' => option_map Z.opp (parse_digits 0 false s')
  | String "+"%char s' => parse_digits 0 false s'
  | s' => parse_digits 0 false s'
  end.

(** ** [read_newsletter_sites] *)
Module Site.
Record t : Type := {
  domain : string;
  url : string;
  confidence : Z;
  paths : string
}.
End Site.

(** Is the row kept?  [None] stands for the exception of [int]. *)
Definition qualifies (row : dict string) : option bool :=
  if mem (lower (get_default row "has_newsletter" "")) ["true"; "1"; "yes"] then
    match
      match dict_get row "confidence_score" with
      | Some s => int s
      | None => Some 0%Z
      end
    with
    | Some confidence => Some (30 <=? confidence)%Z
    | None => None
    end
  else Some false.

(** The site a kept row becomes; [None] stands for [KeyError]. *)
Definition site_of_row (row : dict string) : option Site.t :=
  match dict_get row "domain", dict_get row "url",
        match dict_get row "confidence_score" with
        | Some s => int s
        | None => Some 0%Z
        end
  with
  | Some d, Some u, Some confidence =>
      Some {| Site.domain := d; Site.url := u; Site.confidence := confidence;
              Site.paths := get_default row "found_newsletter_path" "" |}
  | _, _, _ => None
  end.

(** The loop over the rows; [None] when an exception leaves it. *)
Fixpoint collect_sites (rows : list (dict string)) (sites : list Site.t)
  : option (list Site.t) :=
  match rows with
  | [] => Some sites
  | row :: rest =>
      match qualifies row with
      | None => None
      | Some false => collect_sites rest sites
      | Some true =>
          match site_of_row row with
          | Some site => collect_sites rest (sites ++ [site])%list
          | None => None
          end
      end
  end.

(** [read_newsletter_sites()]: [file] is the list of rows
    [csv.DictReader] yields from [INPUT_CSV], [None] when the file does
    not exist. *)
Definition read_newsletter_sites (file : option (list (dict string))) (t : Tape)
  : list Site.t * Tape :=
  match file with
  | None => ([], t)
  | Some rows =>
      match collect_sites rows [] with
      | Some sites => shuffle3 sites t
      | None => ([], t)
      end
  end.

(** ** [find_newsletter_form] *)
Module FormData.
Record t : Type := {
  action : string;
  method : string;
  fields : dict string;
  email_field : string
}.
End FormData.

(** [email_inputs] once the text inputs have been looked at. *)
Definition email_inputs_of (form : Node) : list Node :=
  match find_all ["input"] [("type", "email")] form with
  | [] =>
      filter
        (fun inp =>
           let name := lower (get inp "name" "" ++ get inp "id" ""
                              ++ get inp "placeholder" "") in
           contains "email" name || contains "mail" name)
        (find_all ["input"] [("type", "text")] form)
  | email_inputs => email_inputs
  end.

(** One turn of the loop that fills [fields]. *)
Definition field_step (fields : dict string) (inp : Node) : dict string :=
  match get_opt inp "name" with
  | Some name =>
      if truthy name then
        let value := get inp "value" "" in
        let input_type := lower (get inp "type" "") in
        if mem input_type ["submit"; "button"] then fields
        else dict_set fields name value
      else fields
  | None => fields
  end.

(** The loop that fills [fields]. *)
Definition collect_fields (form : Node) : dict string :=
  fold_left field_step (find_all ["input"; "textarea"] [] form) [].

Definition newsletter_keywords : list string :=
  ["newsletter"; "subscribe"; "signup"; "join"; "mailing"].

Section Forms.

(** [urllib.parse.urljoin] *)
Variable urljoin : string -> string -> string.

(** The body of the loop over the forms: [Some] when it returns. *)
Definition form_data_of (url : string) (form : Node) : option FormData.t :=
  let form_str := lower (render form) in
  match email_inputs_of form with
  | [] => None
  | email_input :: _ =>
      if any_in newsletter_keywords form_str then
        let action := get form "action" "" in
        let method := lower (get form "method" "post") in
        let fields := collect_fields form in
        let email_field_name := get email_input "name" "email" in
        Some {| FormData.action := if truthy action then urljoin url action else url;
                FormData.method := method;
                FormData.fields := fields;
                FormData.email_field := email_field_name |}
      else None
  end.

Fixpoint first_form (url : string) (forms : list Node) : option FormData.t :=
  match forms with
  | [] => None
  | form :: rest =>
      match form_data_of url form with
      | Some fd => Some fd
      | None => first_form url rest
      end
  end.

(** [find_newsletter_form(soup, url)] *)
Definition find_newsletter_form (soup : Node) (url : string) : option FormData.t :=
  first_form url (find_all ["form"] [] soup).

End Forms.

(** ** [register_to_newsletter] *)

Record Response : Type := {
  status_code : Z;
  r_text : string
}.

(** The two requests a session sends: [session.get(url, params=...)]
    and [session.post(url, data=...)]. *)
Inductive Request : Type :=
| GET (url : string) (params : dict string)
| POST (url : string) (data : dict string).

Definition success_keywords : list string :=
  ["thank"; "success"; "confirm"; "subscribed"; "check your email"; "welcome"].

Definition error_keywords : list string :=
  ["error"; "invalid"; "failed"; "already subscribed"].

(** The classification of the lower-cased body of the reply. *)
Definition classify_response (response_text : string) : bool * string :=
  let has_success := any_in success_keywords response_text in
  let has_error := any_in error_keywords response_text in
  if has_success && negb has_error then (true, "Success - confirmation detected")
  else if has_error then (false, "Failed - error message in response")
  else (true, "Success - form submitted").

(** The three results of a submission, under the names the design
    gives them. *)
Definition Confirmed : bool * string := (true, "Success - confirmation detected").
Definition ErrorDetected : bool * string := (false, "Failed - error message in response").
Definition AssumedSuccess : bool * string := (true, "Success - form submitted").

(** [paths_to_try] before the loop. *)
Definition paths_to_try_of (paths : string) : list string :=
  let paths_to_try := if truthy paths then split ";" paths else [] in
  match paths_to_try with
  | [] => ["/"]
  | _ => if negb (mem "/" paths_to_try) then "/" :: paths_to_try else paths_to_try
  end.

(** How one turn of the loop over [paths_to_try] ends: with a
    [return], with [continue], or with an exception that leaves
    [register_to_newsletter]. *)
Inductive Turn : Type :=
| Returns (result : bool * string)
| Continues
| Raises.

(** How the [with open(...)] block of [save_result] ends: every
    [writerow] went through; the header went into the empty file but
    the row was not written; or nothing was written. *)
Inductive WriteOutcome : Type :=
| Written
| HeaderOnly
| NotWritten.

(** How a part of [run] ends: normally, or with an exception on its
    way to the [except] around the loop over the sites. *)
Inductive Flow : Type :=
| Normal
| Raised.

Section Registration.

Variable parse : string -> Node.
Variable urljoin : string -> string -> string.

(** [urlparse(url)] as far as it is used: the scheme and the network
    location; [None] when it raises. *)
Variable urlparse : string -> option (string * string).

(** The outside world: the network as a session reaches it ([None]
    when the request raises), the clock, and the disk, which tells how
    the write of [save_result] ends. *)
Variable World : Type.
Variable send : Request -> World -> option Response * World.
Variable strftime : World -> string.
Variable disk : World -> WriteOutcome * World.

(** The body of the loop over [paths_to_try].  [bound] tells whether
    [full_url] was assigned on an earlier turn: both [except] handlers
    read it, so when [urlparse] raises before the first assignment the
    handler raises [UnboundLocalError] in its turn.  The second
    component tells whether [full_url] is assigned after the turn. *)
Definition try_path (url email path : string) (bound : bool) (w : World)
  : Turn * bool * World :=
  match urlparse url with
  | None => (if bound then Continues else Raises, bound, w)
  | Some (scheme, netloc) =>
      let base_url := scheme ++ "://" ++ netloc in
      let full_url := base_url ++ path in
      match send (GET full_url []) w with
      | (None, w) => (Continues, true, w)
      | (Some response, w) =>
          if (400 <=? status_code response)%Z then (Continues, true, w)
          else
            let soup := parse (r_text response) in
            match find_newsletter_form urljoin soup full_url with
            | None => (Continues, true, w)
            | Some form_data =>
                let fields := dict_set (FormData.fields form_data)
                                (FormData.email_field form_data) email in
                let request :=
                  if String.eqb (FormData.method form_data) "get"
                  then GET (FormData.action form_data) fields
                  else POST (FormData.action form_data) fields in
                match send request w with
                | (None, w) => (Continues, true, w)
                | (Some submit_response, w) =>
                    (Returns (classify_response (lower (r_text submit_response))),
                     true, w)
                end
            end
      end
  end.

(** The loop over [paths_to_try]; [None] when an exception leaves
    it. *)
Fixpoint try_paths (url email : string) (paths_to_try : list string)
  (bound : bool) (w : World) : option (bool * string) * World :=
  match paths_to_try with
  | [] => (Some (false, "Failed - no working form found"), w)
  | path :: rest =>
      match try_path url email path bound w with
      | (Returns result, _, w) => (Some result, w)
      | (Continues, bound, w) => try_paths url email rest bound w
      | (Raises, _, w) => (None, w)
      end
  end.

(** [register_to_newsletter(url, email, paths)]; [None] when it
    raises. *)
Definition register_to_newsletter (url email paths : string) (w : World)
  : option (bool * string) * World :=
  try_paths url email (paths_to_try_of paths) false w.

(** ** [save_result] and [run] *)

(** [if f.tell() == 0: writer.writerow(...)]: the header goes into an
    empty file. *)
Definition ensure_header (file : list (list string)) : list (list string) :=
  match file with
  | [] => [["timestamp"; "domain"; "url"; "email"; "success"; "message"]]
  | _ => file
  end.

(** [save_result(domain, url, email, success, message)] on the rows
    of [OUTPUT_CSV]; [written] tells how far the writes went before an
    exception, which is logged and goes no further. *)
Definition save_result (now domain url email : string) (success : bool)
  (message : string) (written : WriteOutcome) (file : list (list string))
  : list (list string) :=
  match written with
  | Written =>
      (ensure_header file ++ [[now; domain; url; email; str_bool success; message]])%list
  | HeaderOnly => ensure_header file
  | NotWritten => file
  end.

(** The variables [run] updates, the rows of [OUTPUT_CSV], and the
    calls of [register_to_newsletter] that returned so far (site, email
    and what the call returned), kept for reference in the
    statements. *)
Record Run : Type := {
  success_count : Z;
  fail_count : Z;
  skipped_count : Z;
  sites_with_success : Z;
  output_csv : list (list string);
  attempted : list (Site.t * string * (bool * string))
}.

Definition run_init (output : list (list string)) : Run :=
  {| success_count := 0; fail_count := 0; skipped_count := 0;
     sites_with_success := 0; output_csv := output; attempted := [] |}.

(** One call of [register_to_newsletter] followed by [save_result];
    [None] when the call raises, and nothing is saved then. *)
Definition attempt (site : Site.t) (email : string) (st : Run) (w : World)
  : option (bool * string * Run) * World :=
  match register_to_newsletter (Site.url site) email (Site.paths site) w with
  | (None, w) => (None, w)
  | (Some (success, message), w) =>
      let '(written, w') := disk w in
      let st :=
        {| success_count := success_count st;
           fail_count := fail_count st;
           skipped_count := skipped_count st;
           sites_with_success := sites_with_success st;
           output_csv := save_result (strftime w) (Site.domain site) (Site.url site)
                           email success message written (output_csv st);
           attempted := (attempted st ++ [(site, email, (success, message))])%list |} in
      (Some (success, message, st), w')
  end.

(** The loop over [EMAIL_ADDRESSES[1:]]. *)
Fixpoint register_remaining (site : Site.t) (emails : list string) (st : Run)
  (w : World) : Flow * Run * World :=
  match emails with
  | [] => (Normal, st, w)
  | email :: rest =>
      match attempt site email st w with
      | (None, w) => (Raised, st, w)
      | (Some (success2, message2, st), w) =>
          let st :=
            if success2 then
              {| success_count := success_count st + 1;
                 fail_count := fail_count st;
                 skipped_count := skipped_count st;
                 sites_with_success := sites_with_success st;
                 output_csv := output_csv st;
                 attempted := attempted st |}%Z
            else
              {| success_count := success_count st;
                 fail_count := fail_count st + 1;
                 skipped_count := skipped_count st;
                 sites_with_success := sites_with_success st;
                 output_csv := output_csv st;
                 attempted := attempted st |}%Z in
          register_remaining site rest st w
      end
  end.

(** The body of the loop over the sites.  It raises with the
    [IndexError] of [EMAIL_ADDRESSES[0]] and with what a call of
    [register_to_newsletter] raises. *)
Definition process_site (EMAIL_ADDRESSES : list string) (site : Site.t)
  (st : Run) (w : World) : Flow * Run * World :=
  match EMAIL_ADDRESSES with
  | [] => (Raised, st, w)
  | first_email :: remaining =>
      match attempt site first_email st w with
      | (None, w) => (Raised, st, w)
      | (Some (success, message, st), w) =>
          if success then
            let st :=
              {| success_count := success_count st + 1;
                 fail_count := fail_count st;
                 skipped_count := skipped_count st;
                 sites_with_success := sites_with_success st + 1;
                 output_csv := output_csv st;
                 attempted := attempted st |}%Z in
            register_remaining site remaining st w
          else
            (Normal,
             {| success_count := success_count st;
                fail_count := fail_count st + 1;
                skipped_count :=
                  skipped_count st + (Z.of_nat (length EMAIL_ADDRESSES) - 1);
                sites_with_success := sites_with_success st;
                output_csv := output_csv st;
                attempted := attempted st |}%Z, w)
      end
  end.

(** The loop over the sites, inside the [try] of [run]: an exception
    ends it with what was done until then. *)
Fixpoint process_sites (EMAIL_ADDRESSES : list string) (sites : list Site.t)
  (st : Run) (w : World) : Run * World :=
  match sites with
  | [] => (st, w)
  | site :: rest =>
      match process_site EMAIL_ADDRESSES site st w with
      | (Normal, st, w) => process_sites EMAIL_ADDRESSES rest st w
      | (Raised, st, w) => (st, w)
      end
  end.




(** [run()]: [emails_file] and [input_csv] are the two input files,
    [output] the rows [OUTPUT_CSV] holds at the start; the email
    list is loaded first (at import), then the sites are read. *)
Definition run (emails_file : option (list string))
  (input_csv : option (list (dict string))) (output : list (list string))
  (t : Tape) (w : World) : Run * World :=
  let '(EMAIL_ADDRESSES, t) := load_emails emails_file t in
  let '(sites, t) := read_newsletter_sites input_csv t in
  process_sites EMAIL_ADDRESSES sites (run_init output) w.

End Registration.

End Register.

(* ================================================================== *)
(** * Concrete pages and worlds used in the examples *)

Module Examples.

Import Py Soup.

(** [<form id="newsletter"><input type="email"/></form>]: the email
    input has no name. *)
Definition unnamed_form : Node :=
  Tag "form" [("id", "newsletter")] [Tag "input" [("type", "email")] []].

(** [<form id="newsletter"><input name="user_email" type="email"/>
    <input type="submit" name="go" value="Join"/></form>] *)
Definition named_form : Node :=
  Tag "form" [("id", "newsletter")]
    [Tag "input" [("name", "user_email"); ("type", "email")] [];
     Tag "input" [("type", "submit"); ("name", "go"); ("value", "Join")] []].

Definition page_of (body : list Node) : Node :=
  Tag "[document]" [] [Tag "html" [] [Tag "body" [] body]].

(** A page without forms that only says the sentence below, and its
    markup. *)
Definition digest_text : string :=
  "Subscribe to our Newsletter and get our weekly digest".

Definition digest_page : Node :=
  page_of [Tag "p" [] [NavigableString digest_text]].

Definition digest_html : string :=
  "<html><body><p>" ++ digest_text ++ "</p></body></html>".

(** A subscription form: an email input, an action naming the
    subscription and a button saying so. *)
Definition signup_form : Node :=
  Tag "form" [("action", "/subscribe")]
    [Tag "input" [("type", "email"); ("name", "email")] [];
     Tag "button" [] [NavigableString "Subscribe"]].

Definition signup_page : Node := page_of [signup_form].

Definition signup_html : string :=
  "<form action=/subscribe><input type=email name=email><button>Subscribe</button></form>".

(** A parser that knows the pages above. *)
Definition parse_pages (html : string) : Node :=
  if String.eqb html signup_html then signup_page
  else if String.eqb html digest_html then digest_page
  else page_of [].

(** A network that answers the n-th request with the n-th entry of a
    script and raises once the script is over; the world is the number
    of requests made so far. *)
Definition scripted (replies : list App.GetOutcome) (url : string) (n : nat)
  : App.GetOutcome * nat :=
  (nth n replies App.RequestException, S n).

Definition reply (status : Z) (url html : string) : App.GetOutcome :=
  App.Returned {| App.status_code := status; App.r_url := url; App.r_text := html |}.

(** The root fails, [/newsletter] scores 20, [/subscribe] scores 65. *)
Definition late_success : list App.GetOutcome :=
  [App.RequestException;
   reply 200 "https://example.org/newsletter" digest_html;
   reply 200 "https://example.org/subscribe" signup_html].

(** No request is answered with a status below 400. *)
Definition unreachable : list App.GetOutcome :=
  [App.RequestException;
   reply 404 "https://example.org/newsletter" "";
   reply 500 "https://example.org/subscribe" ""].

Definition clock (n : nat) : string := "2024-01-01T00:00:00".

(** Two rows of the scanner's CSV file and two lines of the email
    file. *)
Definition csv_row (domain url : string) : dict string :=
  [("timestamp", "2024-01-01T00:00:00"); ("domain", domain); ("url", url);
   ("has_newsletter", "True"); ("confidence_score", "65");
   ("signals_found", "/:form:email_input_type"); ("found_newsletter_path", "/")].



Definition two_rows : list (dict string) :=
  [csv_row "a.example" "https://a.example/"; csv_row "b.example" "https://b.example/"].



(** A web where every page holds [named_form] and every reply to a
    submission reads as given; the world is the number of requests made
    so far. *)
Definition form_parser (html : string) : Node := page_of [named_form].

Definition same_url (base action : string) : string := base.

Definition split_url (url : string) : option (string * string) :=
  Some ("https", "site.example").

Definition answering (body : string) (request : Register.Request) (n : nat)
  : option Register.Response * nat :=
  (Some {| Register.status_code := 200; Register.r_text := body |}, S n).

Definition wall_clock (n : nat) : string := "2024-01-01 00:00:00".

(** A disk that takes every write, and a disk that takes none. *)
Definition disk_ok (n : nat) : Register.WriteOutcome * nat :=
  (Register.Written, n).




End Examples.

(* ================================================================== *)
(** * app.py: the candidate domains *)

Module Source.

Import Py.

Definition TRANCO_LIST_SIZE : Z := 10000.
Definition MAX_DOMAINS : Z := 100000.

(** The loop of [fetch_domains_from_tranco] over the lines of the list,
    [count] domains having been yielded so far. *)
Fixpoint tranco_lines (lines : list string) (count : Z) : list string :=
  match lines with
  | [] => []
  | line :: rest =>
      if (TRANCO_LIST_SIZE <=? count)%Z then []
      else
        let parts := split "," line in
        if (2 <=? length parts)%nat then
          let domain := strip (nth 1 parts "") in
          if truthy domain then domain :: tranco_lines rest (count + 1)%Z
          else tranco_lines rest count
        else tranco_lines rest count
  end.

Definition common_words : list string :=
  ["blog"; "news"; "tech"; "business"; "media"; "digital"; "daily";
   "weekly"; "post"; "times"; "journal"; "magazine"; "review"; "insider";
   "today"; "world"; "network"; "online"; "web"; "site"; "hub"; "central"].

Definition tlds : list string := ["com"; "org"; "net"; "io"; "co"].

(** [generate_common_domains()], as the list of what it yields. *)
Definition generate_common_domains : list string :=
  flat_map (fun word => map (fun tld => word ++ "." ++ tld) tlds) common_words.

(** [fetch_domains_from_tranco()], as the list of what it yields.
    [download] is the decoded content of the downloaded list, [None]
    when the download, the archive or the decoding raises. *)
Definition fetch_domains_from_tranco (download : option string) : list string :=
  match download with
  | Some content => tranco_lines (split (ascii_of_nat 10) (strip content)) 0
  | None => generate_common_domains
  end.

(** The domains [run] submits to the pool: [domains[:MAX_DOMAINS]]. *)
Definition submitted (download : option string) : list string :=
  firstn (Z.to_nat MAX_DOMAINS) (fetch_domains_from_tranco download).

End Source.

(* ================================================================== *)
(** * The scanner's file as the registration bot reads it *)

Module Csv.

Import Py.

(** [csv.DictReader] on the rows of a file: the first row names the
    fields, every later row that is not empty becomes a dictionary from
    the names to its cells.  Cells beyond the names are not reachable by
    name and are left out; rows with fewer cells than names (where the
    reader fills in [None]) are not represented. *)
Definition dict_reader (file : list (list string)) : list (dict string) :=
  match file with
  | [] => []
  | fieldnames :: rows =>
      map (combine fieldnames)
          (filter (fun row => match row with [] => false | _ => true end) rows)
  end.

(** The scanner's file after [init_csv] and one [append_csv] for each
    record, with the time of writing. *)
Definition written (records : list (string * App.Result.t)) : list (list string) :=
  fold_left (fun file nr => App.append_csv (fst nr) (snd nr) file)
            records App.init_csv.

(** The site [read_newsletter_sites] builds from a record of the
    scanner. *)
Definition site_of_result (r : App.Result.t) : Register.Site.t :=
  {| Register.Site.domain := App.Result.domain r;
     Register.Site.url := App.Result.url r;
     Register.Site.confidence := App.Result.confidence r;
     Register.Site.paths := App.Result.found_paths r |}.

End Csv.

(* ================================================================== *)
(** * Statements about the runs *)

Module Spec.

Import Py App.

(** Every processed domain is counted in exactly one of the three
    outcome counters. *)
Definition stats_consistent (s : Stats) : Prop :=
  processed s = (with_newsletter s + without_newsletter s + errors s)%Z.

(** What a pattern matches: the strings its items describe. *)
Inductive denotes : list Re.Item -> string -> Prop :=
| denotes_nil : denotes [] EmptyString
| denotes_one a c rest s :
    Re.atom_matches a c = true -> denotes rest s ->
    denotes ((a, false) :: rest) (String c s)
| denotes_star_none a rest s :
    denotes rest s -> denotes ((a, true) :: rest) s
| denotes_star_more a c rest s :
    Re.atom_matches a c = true -> denotes ((a, true) :: rest) s ->
    denotes ((a, true) :: rest) (String c s).

Section Logged.

Variable World : Type.
Variable send : Register.Request -> World -> option Register.Response * World.

(** The network of a session, keeping the list of the requests sent,
    each with its reply ([None] when the request raised). *)
Definition logged (request : Register.Request)
  (lw : list (Register.Request * option Register.Response) * World)
  : option Register.Response
    * (list (Register.Request * option Register.Response) * World) :=
  let '(response, w') := send request (snd lw) in
  (response, ((fst lw ++ [(request, response)])%list, w')).

End Logged.

(** The fields a request carries. *)
Definition carried (request : Register.Request) : dict string :=
  match request with
  | Register.GET _ params => params
  | Register.POST _ data => data
  end.






(** A stretch of text without a line feed. *)
Definition on_one_line (gap : string) : Prop :=
  ~ occurs_in (String (ascii_of_nat 10) EmptyString) gap.

(** [s] goes on with the words [words], in this order, each after a
    stretch that stays on one line. *)
Fixpoint then_words (words : list string) (s : string) : Prop :=
  match words with
  | [] => True
  | word :: rest =>
      exists gap after,
        s = gap ++ word ++ after /\ on_one_line gap /\ then_words rest after
  end.

(** [text] holds the words [words], in this order, with nothing but
    stretches of one line between them. *)
Definition words_in_order (words : list string) (text : string) : Prop :=
  match words with
  | [] => True
  | word :: rest =>
      exists before after, text = before ++ word ++ after /\ then_words rest after
  end.

(** The items of the pattern that joins [words] with [.*]. *)
Definition literal (word : string) : list Re.Item :=
  map (fun c => (Re.Lit c, false)) (list_ascii_of_string word).

Fixpoint gaps_then (words : list string) : list Re.Item :=
  match words with
  | [] => []
  | word :: rest => ((Re.AnyChar, true) :: literal word ++ gaps_then rest)%list
  end.

Definition items_of_words (words : list string) : list Re.Item :=
  match words with
  | [] => []
  | word :: rest => (literal word ++ gaps_then rest)%list
  end.

End Spec.

(* ================================================================== *)
(** * Properties of the built-ins *)

Module PyFacts.

Import Py.

Lemma prefix_iff (kw s : string) :
  String.prefix kw s = true <-> exists after, s = kw ++ after.
Proof.
  revert s; induction kw as [|c kw IH]; intros s; simpl.
  - split; [intros _; exists s; reflexivity | now destruct s].
  - destruct s as [|d s]; simpl.
    + split; [discriminate | intros [after H]; discriminate].
    + destruct (Ascii.ascii_dec c d) as [->|Hne].
      * rewrite IH. split; intros [after H]; exists after; congruence.
      * split; [discriminate | intros [after H]; congruence].
Qed.

(** [contains] decides [occurs_in]. *)
Lemma contains_iff (kw s : string) :
  contains kw s = true <-> occurs_in kw s.
Proof.
  unfold occurs_in.
  induction s as [|c s IH]; cbn [contains].
  - rewrite orb_false_r, prefix_iff. split.
    + intros [after H]. exists "", after. exact H.
    + intros [[|b before] [after H]]; [exists after; exact H | discriminate].
  - rewrite orb_true_iff, IH, prefix_iff. split.
    + intros [[after H] | [before [after H]]].
      * exists "", after. exact H.
      * exists (String c before), after. simpl. now rewrite H.
    + intros [[|b before] [after H]].
      * left. exists after. exact H.
      * right. exists before, after. simpl in H. congruence.
Qed.

Lemma any_in_iff (kws : list string) (s : string) :
  any_in kws s = true <-> exists kw, In kw kws /\ occurs_in kw s.
Proof.
  unfold any_in. rewrite existsb_exists.
  split; intros [kw [Hin H]]; exists kw; split; auto; now apply contains_iff.
Qed.

Lemma any_in_false_iff (kws : list string) (s : string) :
  any_in kws s = false <-> ~ exists kw, In kw kws /\ occurs_in kw s.
Proof.
  rewrite <- any_in_iff. destruct (any_in kws s); split; congruence.
Qed.

Lemma mem_iff (x : string) (xs : list string) : mem x xs = true <-> In x xs.
Proof.
  unfold mem. rewrite existsb_exists. split.
  - intros [y [Hin H]]. apply String.eqb_eq in H. now subst.
  - intros H. exists x. split; [exact H | apply String.eqb_refl].
Qed.

Lemma has_key_set {V : Type} (d : dict V) (k : string) (v : V) :
  has_key (dict_set d k v) k = true.
Proof.
  unfold has_key. induction d as [|[k' v'] d IH]; simpl.
  - now rewrite String.eqb_refl.
  - destruct (String.eqb k k') eqn:E; simpl; rewrite E; auto.
Qed.

Lemma has_key_set_mono {V : Type} (d : dict V) (k k0 : string) (v : V) :
  has_key d k0 = true -> has_key (dict_set d k v) k0 = true.
Proof.
  unfold has_key. induction d as [|[k' v'] d IH]; simpl.
  - discriminate.
  - destruct (String.eqb k k') eqn:E; simpl.
    + destruct (String.eqb k0 k'); auto.
    + destruct (String.eqb k0 k'); auto.
Qed.

End PyFacts.

(* ================================================================== *)
(** * Properties of the registration bot *)

Module RegisterFacts.

Import Py Soup Register PyFacts Examples Spec.

(** What [classify_response] returns, by the keywords that occur in
    the text. *)
Lemma classify_by_keywords (response_text : string) :
  let success_present :=
    exists kw, In kw success_keywords /\ occurs_in kw response_text in
  let error_present :=
    exists kw, In kw error_keywords /\ occurs_in kw response_text in
  (success_present /\ ~ error_present ->
     classify_response response_text = Confirmed)
  /\ (error_present -> classify_response response_text = ErrorDetected)
  /\ (~ success_present /\ ~ error_present ->
        classify_response response_text = AssumedSuccess).
Proof.
  cbv zeta. unfold classify_response.
  split; [|split]; intros H.
  - destruct H as [Hs He].
    apply any_in_iff in Hs. apply any_in_false_iff in He.
    now rewrite Hs, He.
  - apply any_in_iff in H. rewrite H, andb_false_r. reflexivity.
  - destruct H as [Hs He].
    apply any_in_false_iff in Hs. apply any_in_false_iff in He.
    now rewrite Hs, He.
Qed.

Section Submission.

Variable parse : string -> Node.
Variable urljoin : string -> string -> string.
Variable urlparse : string -> option (string * string).
Variable World : Type.
Variable send : Request -> World -> option Response * World.

Local Notation try_paths :=
  (Register.try_paths parse urljoin urlparse World send).

(** C1.  Take a turn of the loop of [register_to_newsletter] in which
    the page of the path is fetched, a form is found on it and the
    submission of the form is answered.  The call returns in this turn,
    in the world the submission left, and what it returns is decided by
    the lower-cased body of the reply to the submission: when it holds
    a success keyword and no error keyword the result is [Confirmed]
    (succeeded); when it holds an error keyword the result is
    [ErrorDetected] (not succeeded), whatever success keywords it
    holds; when it holds neither the result is [AssumedSuccess]
    (succeeded). *)
Theorem outcome_classification url email path rest bound w scheme netloc
  response w1 form_data submit_response w2 :
  urlparse url = Some (scheme, netloc) ->
  let full_url := (scheme ++ "://" ++ netloc) ++ path in
  send (GET full_url []) w = (Some response, w1) ->
  (status_code response < 400)%Z ->
  find_newsletter_form urljoin (parse (r_text response)) full_url
  = Some form_data ->
  let fields :=
    dict_set (FormData.fields form_data) (FormData.email_field form_data) email in
  send (if String.eqb (FormData.method form_data) "get"
        then GET (FormData.action form_data) fields
        else POST (FormData.action form_data) fields) w1
  = (Some submit_response, w2) ->
  let response_text := lower (r_text submit_response) in
  let success_present :=
    exists kw, In kw success_keywords /\ occurs_in kw response_text in
  let error_present :=
    exists kw, In kw error_keywords /\ occurs_in kw response_text in
  exists outcome,
    try_paths url email (path :: rest) bound w = (Some outcome, w2)
    /\ (success_present /\ ~ error_present ->
        outcome = Confirmed /\ fst outcome = true)
    /\ (error_present -> outcome = ErrorDetected /\ fst outcome = false)
    /\ (~ success_present /\ ~ error_present ->
        outcome = AssumedSuccess /\ fst outcome = true).
Proof.
  intros U full_url S1 Hstatus Hform fields S2. cbv zeta.
  exists (classify_response (lower (r_text submit_response))).
  split.
  - cbn [Register.try_paths]. unfold Register.try_path.
    rewrite U. cbv zeta. fold full_url. rewrite S1.
    destruct (Z.leb_spec 400 (status_code response)) as [Hle | _]; [lia|].
    rewrite Hform. fold fields. rewrite S2. reflexivity.
  - destruct (classify_by_keywords (lower (r_text submit_response)))
      as [Hc [He Ha]].
    repeat split.
    + now apply Hc.
    + rewrite Hc by assumption. reflexivity.
    + now apply He.
    + rewrite He by assumption. reflexivity.
    + now apply Ha.
    + rewrite Ha by assumption. reflexivity.
Qed.

End Submission.

(** A page with a form, and a reply to its submission saying "Thank
    you!": the call returns [Confirmed] after the two requests. *)
Lemma outcome_classification_witness :
  exists outcome,
    Register.try_paths form_parser same_url split_url nat (answering "Thank you!")
      "https://a.example/" "one@mail.example" ["/"] false 0
    = (Some outcome, 2)
    /\ outcome = Confirmed.
Proof.
  destruct (outcome_classification form_parser same_url split_url nat
              (answering "Thank you!")
              "https://a.example/" "one@mail.example" "/" [] false 0
              "https" "site.example"
              {| status_code := 200; r_text := "Thank you!" |} 1
              {| FormData.action := "https://site.example/";
                 FormData.method := "post";
                 FormData.fields := [("user_email", "")];
                 FormData.email_field := "user_email" |}
              {| status_code := 200; r_text := "Thank you!" |} 2
              eq_refl eq_refl eq_refl eq_refl eq_refl)
    as [outcome [Hrun [Hconfirmed _]]].
  exists outcome. split; [exact Hrun|].
  apply Hconfirmed. split.
  - exists "thank". split; [simpl; auto | exists "", " you!"; reflexivity].
  - intros H. apply any_in_iff in H. vm_compute in H. discriminate.
Defined.

Lemma find_all_In names attrs form n :
  In n (find_all names attrs form) <->
  In n (descendants form) /\ matches names attrs n = true.
Proof. unfold find_all. apply filter_In. Qed.

(** An input found by its [type] is also found among the inputs and
    text areas, and [type] reads back. *)
Lemma typed_input ty n :
  matches ["input"] [("type", ty)] n = true ->
  matches ["input"; "textarea"] [] n = true /\ get n "type" "" = ty.
Proof.
  destruct n as [s|s|name attrs cs]; simpl; try discriminate.
  unfold get_default.
  destruct (String.eqb name "input"); simpl; [|discriminate].
  destruct (dict_get attrs "type") as [v|]; [|discriminate].
  rewrite andb_true_r. intros H. apply String.eqb_eq in H. now subst.
Qed.

Lemma email_inputs_of_In form inp :
  In inp (email_inputs_of form) ->
  In inp (find_all ["input"; "textarea"] [] form)
  /\ (get inp "type" "" = "email" \/ get inp "type" "" = "text").
Proof.
  unfold email_inputs_of.
  destruct (find_all ["input"] [("type", "email")] form) as [|e es] eqn:E.
  - intros H. apply filter_In in H. destruct H as [H _].
    apply find_all_In in H. destruct H as [Hd Hm].
    apply typed_input in Hm. destruct Hm as [Hm Ht].
    split; [apply find_all_In; auto | auto].
  - rewrite <- E. intros H.
    apply find_all_In in H. destruct H as [Hd Hm].
    apply typed_input in Hm. destruct Hm as [Hm Ht].
    split; [apply find_all_In; auto | auto].
Qed.

Lemma field_step_mono fields inp k :
  has_key fields k = true -> has_key (field_step fields inp) k = true.
Proof.
  intros H. unfold field_step.
  destruct (get_opt inp "name") as [name|]; auto.
  destruct (truthy name); auto.
  destruct (mem _ _); auto.
  now apply has_key_set_mono.
Qed.

Lemma fold_field_step_mono l fields k :
  has_key fields k = true -> has_key (fold_left field_step l fields) k = true.
Proof.
  revert fields; induction l as [|inp l IH]; intros fields H; simpl; auto.
  apply IH. now apply field_step_mono.
Qed.

Lemma fold_field_step_In l fields inp name :
  In inp l ->
  get_opt inp "name" = Some name -> name <> "" ->
  (get inp "type" "" = "email" \/ get inp "type" "" = "text") ->
  has_key (fold_left field_step l fields) name = true.
Proof.
  intros Hin Hname Hne Hty.
  revert fields; induction l as [|x l IH]; intros fields; [contradiction|].
  simpl. destruct Hin as [->|Hin]; [|now apply IH].
  apply fold_field_step_mono.
  unfold field_step. rewrite Hname.
  destruct name as [|c name]; [congruence|]. simpl truthy. cbv iota.
  destruct Hty as [-> | ->]; simpl; apply has_key_set.
Qed.

Lemma form_data_of_Some urljoin url form fd :
  form_data_of urljoin url form = Some fd ->
  exists email_input rest,
    email_inputs_of form = email_input :: rest
    /\ FormData.email_field fd = get email_input "name" "email"
    /\ FormData.fields fd = collect_fields form.
Proof.
  unfold form_data_of.
  destruct (email_inputs_of form) as [|email_input rest]; [discriminate|].
  destruct (any_in _ _); [|discriminate].
  intros H. injection H as <-. exists email_input, rest. auto.
Qed.

Lemma first_form_Some urljoin url forms fd :
  first_form urljoin url forms = Some fd ->
  exists form, In form forms /\ form_data_of urljoin url form = Some fd.
Proof.
  induction forms as [|form forms IH]; simpl; [discriminate|].
  destruct (form_data_of urljoin url form) as [fd'|] eqn:E.
  - intros H. injection H as ->. exists form. auto.
  - intros H. destruct (IH H) as [f [Hin Hf]]. exists f. auto.
Qed.

Lemma get_of_get_opt n key default v :
  get_opt n key = Some v -> get n key default = v.
Proof.
  destruct n; simpl; try discriminate. unfold get_default. now intros ->.
Qed.

(** C3, as the code has it.  A descriptor returned by
    [find_newsletter_form] comes from a form of the page and the first
    of its email inputs; its [email_field] is that input's [name], or
    ["email"] when the input has none.  When the input carries a
    non-empty [name], [email_field] is that name and it is a key of
    [fields].  In every case it is a key once the submission step has
    stored the email address under it. *)
Theorem target_field_present urljoin soup url fd :
  find_newsletter_form urljoin soup url = Some fd ->
  exists form email_input rest,
    In form (find_all ["form"] [] soup)
    /\ email_inputs_of form = email_input :: rest
    /\ FormData.email_field fd = get email_input "name" "email"
    /\ (forall name,
          get_opt email_input "name" = Some name -> name <> "" ->
          FormData.email_field fd = name
          /\ has_key (FormData.fields fd) (FormData.email_field fd) = true)
    /\ (forall email,
          has_key (dict_set (FormData.fields fd) (FormData.email_field fd) email)
                  (FormData.email_field fd) = true).
Proof.
  unfold find_newsletter_form. intros H.
  apply first_form_Some in H. destruct H as [form [Hin Hform]].
  apply form_data_of_Some in Hform.
  destruct Hform as [email_input [rest [Hinputs [Hfield Hfields]]]].
  exists form, email_input, rest. repeat split; auto.
  - rewrite Hfield. now apply get_of_get_opt.
  - rewrite Hfield, Hfields, (get_of_get_opt _ _ "email" _ H).
    assert (Hi : In email_input (email_inputs_of form))
      by (rewrite Hinputs; now left).
    apply email_inputs_of_In in Hi. destruct Hi as [Hi Hty].
    unfold collect_fields. now apply fold_field_step_In with (inp := email_input).
  - intros email. apply has_key_set.
Qed.

(** A form whose email input is named [user_email]. *)
Lemma target_field_present_witness :
  exists fd,
    find_newsletter_form (fun base _ => base) (page_of [named_form]) "https://a.com/" = Some fd
    /\ FormData.email_field fd = "user_email"
    /\ has_key (FormData.fields fd) (FormData.email_field fd) = true.
Proof.
  eexists. split; [reflexivity|].
  destruct (target_field_present (fun base _ => base) (page_of [named_form])
              "https://a.com/" _ eq_refl)
    as [form [email_input [rest [Hin [Hinputs [_ [Hname _]]]]]]].
  vm_compute in Hin. destruct Hin as [<-|[]].
  vm_compute in Hinputs. injection Hinputs as <- <-.
  apply (Hname "user_email"); [reflexivity | discriminate].
Defined.

(** C3 as stated fails: for a form whose email input has no [name]
    the descriptor names the field ["email"] and [fields] is empty. *)
Lemma target_field_absent :
  ~ (forall urljoin soup url fd,
       find_newsletter_form urljoin soup url = Some fd ->
       has_key (FormData.fields fd) (FormData.email_field fd) = true).
Proof.
  intros H.
  specialize (H (fun base _ => base) (page_of [unnamed_form]) "https://a.com/" _ eq_refl).
  vm_compute in H. discriminate.
Qed.

(** ** The file of results *)











Lemma paths_to_try_not_nil paths : paths_to_try_of paths <> [].
Proof.
  unfold paths_to_try_of.
  destruct (if truthy paths then split ";" paths else []) as [|p ps];
    [discriminate|].
  destruct (negb (mem "/" (p :: ps))); discriminate.
Qed.

Section RunFacts.

Variable parse : string -> Node.
Variable urljoin : string -> string -> string.
Variable urlparse : string -> option (string * string).
Variable World : Type.
Variable send : Request -> World -> option Response * World.
Variable strftime : World -> string.
Variable disk : World -> WriteOutcome * World.

Local Notation try_path :=
  (Register.try_path parse urljoin urlparse World send).
Local Notation try_paths :=
  (Register.try_paths parse urljoin urlparse World send).
Local Notation register_to_newsletter :=
  (Register.register_to_newsletter parse urljoin urlparse World send).
Local Notation attempt :=
  (Register.attempt parse urljoin urlparse World send strftime disk).
Local Notation register_remaining :=
  (Register.register_remaining parse urljoin urlparse World send strftime disk).
Local Notation process_site :=
  (Register.process_site parse urljoin urlparse World send strftime disk).
Local Notation process_sites :=
  (Register.process_sites parse urljoin urlparse World send strftime disk).
Local Notation run :=
  (Register.run parse urljoin urlparse World send strftime disk).

(** Every write goes through. *)
Local Notation all_written := (forall w0, fst (disk w0) = Written).

(** The calls of one site, with what they returned. *)
Local Notation made_for site emails outcomes :=
  (map (fun eo => (site, fst eo, snd eo)) (combine emails outcomes)).

(** The calls made for the sites [sites] when [ks] tells how many
    addresses each site gets. *)
Local Notation calls_for EMAIL_ADDRESSES sites ks :=
  (flat_map (fun sk => map (pair (fst sk)) (firstn (snd sk) EMAIL_ADDRESSES))
     (combine sites ks)).

(** A URL that [urlparse] takes never makes the call raise. *)
Lemma try_paths_parsed url email paths :
  urlparse url <> None ->
  forall bound w,
    exists result, fst (try_paths url email paths bound w) = Some result.
Proof.
  intros U. induction paths as [|path rest IH]; intros bound w.
  - eexists. reflexivity.
  - cbn [Register.try_paths]. unfold Register.try_path.
    destruct (urlparse url) as [[scheme netloc]|]; [|congruence].
    cbv zeta.
    destruct (send (GET ((scheme ++ "://" ++ netloc) ++ path) []) w)
      as [[response|] w1]; [|apply IH].
    destruct (400 <=? status_code response)%Z; [apply IH|].
    destruct (find_newsletter_form urljoin (parse (r_text response))
                ((scheme ++ "://" ++ netloc) ++ path)) as [form_data|];
      [|apply IH].
    match goal with
    | |- context [send ?request w1] =>
        destruct (send request w1) as [[submit_response|] w2]
    end; [eexists; reflexivity | apply IH].
Qed.

(** A URL that [urlparse] does not take makes the call raise before
    any request. *)
Lemma register_raises url email paths w :
  urlparse url = None -> register_to_newsletter url email paths w = (None, w).
Proof.
  intros U. unfold Register.register_to_newsletter.
  destruct (paths_to_try_of paths) as [|path rest] eqn:E;
    [now apply paths_to_try_not_nil in E|].
  cbn [Register.try_paths]. unfold Register.try_path. now rewrite U.
Qed.














End RunFacts.
(** ** [random.shuffle] permutes *)

Lemma list_set_perm {A : Type} (x : list A) :
  forall i a v,
    nth_error x i = Some a -> Permutation (a :: list_set i v x) (v :: x).
Proof.
  induction x as [|b x IH]; intros [|i] a v H; simpl in *; try discriminate.
  - injection H as ->. apply perm_swap.
  - apply perm_trans with (b :: a :: list_set i v x); [apply perm_swap|].
    apply perm_trans with (b :: v :: x); [|apply perm_swap].
    apply perm_skip. now apply IH.
Qed.

Lemma nth_error_list_set {A : Type} (x : list A) :
  forall i j a b v,
    nth_error x i = Some a -> nth_error x j = Some b ->
    nth_error (list_set i v x) j = Some (if Nat.eqb i j then v else b).
Proof.
  induction x as [|c x IH]; intros [|i] [|j] a b v Hi Hj; simpl in *;
    try discriminate; auto.
  apply (IH _ _ a); auto.
Qed.

Lemma swap_perm {A : Type} (i j : nat) (x : list A) : Permutation (swap i j x) x.
Proof.
  unfold swap.
  destruct (nth_error x i) as [a|] eqn:Hi; [|reflexivity].
  destruct (nth_error x j) as [b|] eqn:Hj; [|reflexivity].
  pose proof (nth_error_list_set x i j a b b Hi Hj) as Hj'.
  replace (if Nat.eqb i j then b else b) with b in Hj' by now destruct (Nat.eqb i j).
  apply Permutation_cons_inv with (a := b).
  apply perm_trans with (a :: list_set i b x).
  - now apply list_set_perm.
  - now apply list_set_perm.
Qed.

Lemma shuffle_from_perm {A : Type} (i : nat) :
  forall (x : list A) (t : Tape), Permutation (fst (shuffle_from i x t)) x.
Proof.
  induction i as [|i IH]; intros x t; cbn [shuffle_from].
  - reflexivity.
  - destruct (randbelow (S i + 1) t) as [j t'].
    apply perm_trans with (swap (S i) j x); [apply IH | apply swap_perm].
Qed.

Lemma shuffle_perm {A : Type} (x : list A) (t : Tape) :
  Permutation (fst (shuffle x t)) x.
Proof. apply shuffle_from_perm. Qed.

Lemma shuffle3_perm {A : Type} (x : list A) (t : Tape) :
  Permutation (fst (shuffle3 x t)) x.
Proof.
  unfold shuffle3.
  pose proof (shuffle_perm x t) as H1.
  destruct (shuffle x t) as [x1 t1]. simpl in H1.
  pose proof (shuffle_perm x1 t1) as H2.
  destruct (shuffle x1 t1) as [x2 t2]. simpl in H2.
  apply perm_trans with x2; [apply shuffle_perm|].
  now apply perm_trans with x1.
Qed.

Section RunOrder.

Variable parse : string -> Node.
Variable urljoin : string -> string -> string.
Variable urlparse : string -> option (string * string).
Variable World : Type.
Variable send : Request -> World -> option Response * World.
Variable strftime : World -> string.
Variable disk : World -> WriteOutcome * World.

Local Notation process_sites :=
  (Register.process_sites parse urljoin urlparse World send strftime disk).
Local Notation run :=
  (Register.run parse urljoin urlparse World send strftime disk).

(** The calls made for the sites [sites] when [ks] tells how many
    addresses each site gets. *)
Local Notation calls_for EMAIL_ADDRESSES sites ks :=
  (flat_map (fun sk => map (pair (fst sk)) (firstn (snd sk) EMAIL_ADDRESSES))
     (combine sites ks)).


End RunOrder.





End RegisterFacts.

(* ================================================================== *)
(** * Properties of the scanner *)

Module AppFacts.

Import Py Soup App PyFacts Examples.

(** The classification is the comparison of the confidence with 30. *)
Lemma detect_classified parse html url :
  classified (detect_newsletter parse html url)
  = (30 <=? confidence_of (detect_newsletter parse html url))%Z.
Proof. reflexivity. Qed.

Lemma scan_services_none html_lower sc :
  any_in newsletter_services html_lower = false ->
  scan_services html_lower sc = sc.
Proof.
  unfold scan_services, any_in.
  generalize newsletter_services. intros services.
  revert sc; induction services as [|service services IH]; intros sc H; simpl in *.
  - reflexivity.
  - apply orb_false_iff in H. destruct H as [H1 H2].
    rewrite H1. now apply IH.
Qed.

(** C4, as the code has it.  A page without forms whose text is
    "Subscribe to our Newsletter and get our weekly digest", with no
    embedded frame and no provider name in its markup, matches two of
    the five patterns ([subscribe.*newsletter] and
    [get.*weekly.*digest]): the confidence is 20 and the page is not
    classified. *)
Theorem digest_example parse html url :
  find_all ["form"] [] (parse html) = [] ->
  get_text " " (parse html) = digest_text ->
  any_in newsletter_services (lower html) = false ->
  find_all ["iframe"] [] (parse html) = [] ->
  detect_newsletter parse html url
  = (false, 20%Z, "pattern:get.*weekly.*digest;pattern:subscribe.*newslette").
Proof.
  intros Hforms Htext Hservices Hiframes.
  unfold detect_newsletter. cbv zeta.
  rewrite Hforms, Htext. unfold scan_iframes. rewrite Hiframes.
  rewrite (scan_services_none _ _ Hservices).
  reflexivity.
Qed.

Lemma digest_example_witness :
  detect_newsletter (fun _ => digest_page) digest_html "https://example.org/"
  = (false, 20%Z, "pattern:get.*weekly.*digest;pattern:subscribe.*newslette").
Proof.
  apply digest_example; reflexivity.
Defined.

(** C4 as stated fails: the confidence of such a page is not 10. *)
Lemma digest_confidence_not_10 :
  ~ (forall parse html url,
       find_all ["form"] [] (parse html) = [] ->
       get_text " " (parse html) = digest_text ->
       confidence_of (detect_newsletter parse html url) = 10%Z
       /\ classified (detect_newsletter parse html url) = false).
Proof.
  intros H.
  destruct (H (fun _ => digest_page) digest_html "https://example.org/"
              eq_refl eq_refl) as [H10 _].
  vm_compute in H10. discriminate.
Qed.

Section CrawlFacts.

Variable parse : string -> Node.
Variable World : Type.
Variable requests_get : string -> World -> GetOutcome * World.

Local Notation visit := (App.visit parse World requests_get).
Local Notation explore := (App.explore parse World requests_get).
Local Notation analyze_domain := (App.analyze_domain parse World requests_get).
Local Notation detect := (detect_newsletter parse).
Local Notation all_fail := (App.all_fail World requests_get).
Local Notation first_success := (App.first_success World requests_get).

(** The URL requested for a path of a domain. *)
Local Notation url_of domain path := (("https://" ++ domain) ++ path).

(** What one turn of the loop does, by the reply to its request. *)
Lemma visit_failed domain path st w w' :
  requests_get (url_of domain path) w = (RequestException, w') ->
  visit domain path st w = (Next, st, w').
Proof. unfold App.visit. now intros ->. Qed.

Lemma visit_raised domain path st w w' :
  requests_get (url_of domain path) w = (OtherException, w') ->
  visit domain path st w = (Raise, st, w').
Proof. unfold App.visit. now intros ->. Qed.

Lemma visit_error_status domain path st w r w' :
  requests_get (url_of domain path) w = (Returned r, w') ->
  (400 <= status_code r)%Z ->
  visit domain path st w = (Next, st, w').
Proof.
  unfold App.visit. intros -> H.
  apply Z.leb_le in H. now rewrite H.
Qed.

Lemma visit_not_better domain path st w r w' :
  requests_get (url_of domain path) w = (Returned r, w') ->
  (status_code r < 400)%Z ->
  (confidence_of (detect (r_text r) (r_url r)) < 30
   \/ confidence_of (detect (r_text r) (r_url r)) <= max_confidence st)%Z ->
  visit domain path st w = (Next, with_url st r, w').
Proof.
  unfold App.visit. intros -> Hs Hc.
  apply Z.leb_gt in Hs. rewrite Hs.
  pose proof (detect_classified parse (r_text r) (r_url r)) as Hcl.
  destruct (detect (r_text r) (r_url r)) as [[h c] sg].
  unfold classified, confidence_of in *. simpl in *. subst h.
  replace (max_confidence (with_url st r)) with (max_confidence st)
    by (unfold with_url; now destruct (negb _)).
  destruct Hc as [Hc|Hc].
  - apply Z.leb_gt in Hc. now rewrite Hc.
  - apply Z.ltb_ge in Hc. now rewrite Hc, andb_false_r.
Qed.
(** One turn of the loop either leaves the maximum, the contributing
    paths and the signals alone and does not break, or it has fetched
    a page that is classified and scores more than the maximum. *)
Lemma visit_inv domain path st w c st' w' :
  visit domain path st w = (c, st', w') ->
  (max_confidence st' = max_confidence st
   /\ found_paths st' = found_paths st
   /\ all_signals st' = all_signals st
   /\ c <> Break)
  \/ (exists r,
        requests_get (url_of domain path) w = (Returned r, w')
        /\ (status_code r < 400)%Z
        /\ classified (detect (r_text r) (r_url r)) = true
        /\ (30 <= confidence_of (detect (r_text r) (r_url r)))%Z
        /\ (max_confidence st < confidence_of (detect (r_text r) (r_url r)))%Z
        /\ max_confidence st' = confidence_of (detect (r_text r) (r_url r))
        /\ found_paths st' = set_add path (found_paths st)
        /\ (c = Break <->
            path = "/" /\ (50 <= confidence_of (detect (r_text r) (r_url r)))%Z)
        /\ c <> Raise).
Proof.
  destruct (requests_get (url_of domain path) w) as [[r| |] w1] eqn:E.
  - destruct (Z_lt_le_dec (status_code r) 400) as [Hs|Hs].
    + destruct (Z_lt_le_dec (confidence_of (detect (r_text r) (r_url r))) 30)
        as [Hc|Hc];
      [|destruct (Z_lt_le_dec (max_confidence st)
                   (confidence_of (detect (r_text r) (r_url r)))) as [Hm|Hm]].
      * rewrite (visit_not_better _ _ _ _ _ _ E Hs (or_introl Hc)).
        intros H; injection H as <- <- <-. left.
        unfold with_url. destruct (negb _); simpl; repeat split; discriminate.
      * intros H. right. exists r.
        unfold App.visit in H. rewrite E in H.
        apply Z.leb_gt in Hs. rewrite Hs in H.
        pose proof (detect_classified parse (r_text r) (r_url r)) as Hcl.
        destruct (detect (r_text r) (r_url r)) as [[h cf] sg].
        unfold classified, confidence_of in *. simpl in *. subst h.
        replace (max_confidence (with_url st r)) with (max_confidence st) in H
          by (unfold with_url; now destruct (negb _)).
        replace (found_paths (with_url st r)) with (found_paths st) in H
          by (unfold with_url; now destruct (negb _)).
        assert (H30 : (30 <=? cf)%Z = true) by now apply Z.leb_le.
        assert (Hlt : (max_confidence st <? cf)%Z = true) by now apply Z.ltb_lt.
        rewrite H30, Hlt in H. simpl in H.
        apply Z.leb_gt in Hs.
        destruct (String.eqb path "/") eqn:Ep; simpl in H;
          [destruct (50 <=? cf)%Z eqn:E50; simpl in H|];
          injection H as <- <- <-; simpl;
          repeat split; auto; try discriminate; try tauto.
        -- now apply String.eqb_eq.
        -- now apply Z.leb_le.
        -- intros [_ H50]. apply Z.leb_le in H50. congruence.
        -- intros [Hp _]. apply String.eqb_eq in Hp. congruence.
      * rewrite (visit_not_better _ _ _ _ _ _ E Hs (or_intror Hm)).
        intros H; injection H as <- <- <-. left.
        unfold with_url. destruct (negb _); simpl; repeat split; discriminate.
    + rewrite (visit_error_status _ _ _ _ _ _ E Hs).
      intros H; injection H as <- <- <-. left. repeat split; discriminate.
  - rewrite (visit_failed _ _ _ _ _ E).
    intros H; injection H as <- <- <-. left. repeat split; discriminate.
  - rewrite (visit_raised _ _ _ _ _ E).
    intros H; injection H as <- <- <-. left. repeat split; discriminate.
Qed.

(** C9.  A turn of the loop changes the running maximum or the set of
    contributing paths only when it has fetched a page that is
    classified and whose confidence is greater than the maximum; a page
    whose confidence equals the maximum (or is below it) changes
    neither, nor the signals. *)
Theorem maximum_replaced_only_by_greater domain path st w c st' w' :
  visit domain path st w = (c, st', w') ->
  (max_confidence st' <> max_confidence st \/ found_paths st' <> found_paths st ->
   exists r,
     requests_get (url_of domain path) w = (Returned r, w')
     /\ classified (detect (r_text r) (r_url r)) = true
     /\ (max_confidence st < confidence_of (detect (r_text r) (r_url r)))%Z
     /\ max_confidence st' = confidence_of (detect (r_text r) (r_url r)))
  /\ (forall r,
        requests_get (url_of domain path) w = (Returned r, w') ->
        (confidence_of (detect (r_text r) (r_url r)) <= max_confidence st)%Z ->
        max_confidence st' = max_confidence st
        /\ found_paths st' = found_paths st
        /\ all_signals st' = all_signals st).
Proof.
  intros H. split.
  - intros Hchg.
    destruct (visit_inv _ _ _ _ _ _ _ H)
      as [[Hm [Hf _]] | [r [E [_ [Hcl [_ [Hlt [Hm _]]]]]]]].
    + destruct Hchg; contradiction.
    + exists r. auto.
  - intros r E Hle.
    destruct (visit_inv _ _ _ _ _ _ _ H)
      as [[Hm [Hf [Ha _]]] | [r' [E' [_ [_ [_ [Hlt _]]]]]]].
    + auto.
    + rewrite E in E'. injection E' as <-. lia.
Qed.

(** The confidence is 0 or at least 30, and then it is the score of
    some page. *)
Local Notation reported m :=
  (Z.eq m 0
   \/ (Z.le 30 m /\ exists html url, Z.eq m (confidence_of (detect html url)))).

Lemma explore_reported domain paths :
  forall st w c st' w' seen,
    explore domain paths st w = (c, st', w', seen) ->
    reported (max_confidence st) -> reported (max_confidence st').
Proof.
  induction paths as [|path rest IH]; intros st w c st' w' seen; simpl.
  - intros H; injection H as <- <- <- <-. auto.
  - destruct (visit domain path st w) as [[c1 st1] w1] eqn:V.
    assert (Hstep : reported (max_confidence st) -> reported (max_confidence st1)).
    { intros Hst.
      destruct (visit_inv _ _ _ _ _ _ _ V)
        as [[Hm _] | [r [_ [_ [_ [H30 [_ [Hm _]]]]]]]].
      - rewrite Hm. exact Hst.
      - right. rewrite Hm. split; [exact H30|].
        exists (r_text r), (r_url r). reflexivity. }
    destruct c1.
    + destruct (explore domain rest st1 w1) as [[[c2 st2] w2] seen2] eqn:X.
      intros H; injection H as <- <- <- <-. intros Hst.
      apply (IH _ _ _ _ _ _ X). auto.
    + intros H; injection H as <- <- <- <-. auto.
    + intros H; injection H as <- <- <- <-. auto.
Qed.

(** C10.  A record returned by [analyze_domain] has confidence 0 or a
    confidence of at least 30 (the score of one of the pages), never a
    value in between: a page scoring less than 30 leaves the maximum at
    what it was.  Its [has_newsletter] is true exactly when the
    confidence is not 0, and when no page can score 30 the confidence
    is 0. *)
Theorem record_confidence_zero_or_classified domain w result w' :
  analyze_domain domain w = (Some (Some result), w') ->
  (Result.confidence result = 0%Z
   \/ ((30 <= Result.confidence result)%Z
       /\ exists html url,
            Result.confidence result = confidence_of (detect html url)))
  /\ ~ (0 < Result.confidence result < 30)%Z
  /\ (Result.has_newsletter result = true <-> Result.confidence result <> 0%Z)
  /\ ((forall html url, (confidence_of (detect html url) < 30)%Z) ->
      Result.confidence result = 0%Z).
Proof.
  unfold App.analyze_domain.
  destruct (explore domain paths_to_check explore_init w)
    as [[[c st] w1] seen] eqn:X.
  assert (Hrep : reported (max_confidence st))
    by (apply (explore_reported _ _ _ _ _ _ _ _ X); now left).
  intros H.
  assert (Hres : Result.confidence result = max_confidence st
                 /\ Result.has_newsletter result = (30 <=? max_confidence st)%Z).
  { destruct c; try discriminate;
      (destruct (successful_url st) as [u|]; [destruct (truthy u)|]);
      try discriminate; injection H as <- <-; auto. }
  destruct Hres as [-> ->].
  split; [exact Hrep|]. split; [|split].
  - destruct Hrep as [-> | [H30 _]]; lia.
  - rewrite Z.leb_le. destruct Hrep as [-> | [H30 _]]; lia.
  - intros Hlow. destruct Hrep as [-> | [H30 [html [url Hscore]]]]; [reflexivity|].
    specialize (Hlow html url). unfold Z.eq in Hscore. lia.
Qed.

(** The turn of the loop for a page that is classified and scores more
    than the maximum ends with [break] exactly for the root path and a
    confidence of 50 or more. *)
Lemma visit_better domain path st w r w' :
  requests_get (url_of domain path) w = (Returned r, w') ->
  (status_code r < 400)%Z ->
  (30 <= confidence_of (detect (r_text r) (r_url r)))%Z ->
  (max_confidence st < confidence_of (detect (r_text r) (r_url r)))%Z ->
  fst (fst (visit domain path st w))
  = if String.eqb path "/" && (50 <=? confidence_of (detect (r_text r) (r_url r)))%Z
    then Break else Next.
Proof.
  unfold App.visit. intros -> Hs H30 Hlt.
  apply Z.leb_gt in Hs. rewrite Hs.
  pose proof (detect_classified parse (r_text r) (r_url r)) as Hcl.
  destruct (detect (r_text r) (r_url r)) as [[h cf] sg].
  unfold classified, confidence_of in *. simpl in *. subst h.
  replace (max_confidence (with_url st r)) with (max_confidence st)
    by (unfold with_url; now destruct (negb _)).
  apply Z.leb_le in H30. apply Z.ltb_lt in Hlt. rewrite H30, Hlt. simpl.
  now destruct (String.eqb path "/" && (50 <=? cf)%Z).
Qed.

Lemma explore_no_break domain paths :
  (forall p, In p paths -> p <> "/") ->
  forall st w c st' w' seen,
    explore domain paths st w = (c, st', w', seen) -> c <> Break.
Proof.
  induction paths as [|path rest IH]; intros Hroot st w c st' w' seen; simpl.
  - intros H; injection H as <- <- <- <-. discriminate.
  - destruct (visit domain path st w) as [[c1 st1] w1] eqn:V.
    assert (Hc1 : c1 <> Break).
    { destruct (visit_inv _ _ _ _ _ _ _ V)
        as [[_ [_ [_ Hnb]]] | [r [_ [_ [_ [_ [_ [_ [_ [Hb _]]]]]]]]]]; auto.
      intros Hbreak. apply Hb in Hbreak. destruct Hbreak as [Hp _].
      apply (Hroot path); [now left | exact Hp]. }
    destruct c1; [|congruence|].
    + destruct (explore domain rest st1 w1) as [[[c2 st2] w2] seen2] eqn:X.
      intros H; injection H as <- <- <- <-.
      apply (IH (fun p Hp => Hroot p (or_intror Hp)) _ _ _ _ _ _ X).
    + intros H; injection H as <- <- <- <-. discriminate.
Qed.

Lemma explore_seen_all domain paths :
  forall st w st' w' seen,
    explore domain paths st w = (Next, st', w', seen) -> seen = paths.
Proof.
  induction paths as [|path rest IH]; intros st w st' w' seen; simpl.
  - intros H; now injection H as <- <- <-.
  - destruct (visit domain path st w) as [[c1 st1] w1].
    destruct c1; try discriminate.
    destruct (explore domain rest st1 w1) as [[[c2 st2] w2] seen2] eqn:X.
    intros H; injection H as -> <- <- <-.
    f_equal. apply (IH _ _ _ _ _ X).
Qed.

Lemma explore_cons domain path rest st w :
  explore domain (path :: rest) st w
  = match visit domain path st w with
    | (Next, st', w') =>
        let '(c, st'', w'', seen) := explore domain rest st' w' in
        (c, st'', w'', path :: seen)
    | (c, st', w') => (c, st', w', [path])
    end.
Proof. reflexivity. Qed.

(** The loop of [analyze_domain] breaks exactly when its first turn
    does, and then stops there. *)
Lemma explore_root domain w c st w' seen c1 st1 w1 :
  explore domain paths_to_check explore_init w = (c, st, w', seen) ->
  visit domain "/" explore_init w = (c1, st1, w1) ->
  (c = Break <-> c1 = Break)
  /\ (c1 = Break -> st = st1 /\ seen = ["/"]).
Proof.
  unfold paths_to_check.
  remember ["/newsletter"; "/subscribe"; "/contact"; "/about"] as rest eqn:Hrest.
  assert (Hroot : forall p, In p rest -> p <> "/")
    by (subst rest; simpl; intros p [<-|[<-|[<-|[<-|[]]]]]; discriminate).
  rewrite explore_cons. intros X V. rewrite V in X.
  destruct c1.
  - destruct (explore domain rest st1 w1) as [[[c2 st2] w2] seen2] eqn:X2.
    injection X as <- <- <- <-.
    apply (explore_no_break _ _ Hroot) in X2.
    split; [split; congruence | discriminate].
  - injection X as <- <- <- <-. split; [tauto | auto].
  - injection X as <- <- <- <-. split; [split; discriminate | discriminate].
Qed.

(** C5.  No turn of the loop for a path other than the root ends with
    [break], whatever the page scores.  In the loop of [analyze_domain]
    the early exit is taken exactly when the request for the root path
    is answered with a status below 400 and the page scores 50 or more;
    the root is then the only path requested and the only contributing
    path.  Without early exit and without exception all five paths are
    requested. *)
Theorem early_exit_rule domain :
  (forall path st w,
     path <> "/" -> fst (fst (visit domain path st w)) <> Break)
  /\ (forall w c st w' seen,
        explore domain paths_to_check explore_init w = (c, st, w', seen) ->
        (c = Break <->
         exists r w1,
           requests_get (url_of domain "/") w = (Returned r, w1)
           /\ (status_code r < 400)%Z
           /\ (50 <= confidence_of (detect (r_text r) (r_url r)))%Z)
        /\ (c = Break -> seen = ["/"] /\ found_paths st = ["/"])
        /\ (c = Next -> seen = paths_to_check)).
Proof.
  split.
  - intros path st w Hpath.
    destruct (visit domain path st w) as [[c st'] w'] eqn:V. simpl.
    destruct (visit_inv _ _ _ _ _ _ _ V)
      as [[_ [_ [_ Hnb]]] | [r [_ [_ [_ [_ [_ [_ [_ [Hb _]]]]]]]]]]; auto.
    intros Hbreak. apply Hb in Hbreak. now destruct Hbreak.
  - intros w c st w' seen X.
    destruct (visit domain "/" explore_init w) as [[c1 st1] w1] eqn:V.
    destruct (explore_root _ _ _ _ _ _ _ _ _ X V) as [Hiff Hstop].
    pose proof (visit_inv _ _ _ _ _ _ _ V) as Hinv.
    split; [|split].
    + rewrite Hiff. split.
      * intros ->.
        destruct Hinv as [[_ [_ [_ Hnb]]] | [r [E [Hs [_ [_ [_ [_ [_ [Hb _]]]]]]]]]];
          [congruence|].
        exists r, w1. repeat split; auto. now apply Hb.
      * intros [r [w2 [E [Hs H50]]]].
        assert (Hb : fst (fst (visit domain "/" explore_init w)) = Break).
        { rewrite (visit_better _ _ _ _ _ _ E Hs); simpl; [|lia|lia].
          apply Z.leb_le in H50. now rewrite H50. }
        rewrite V in Hb. exact Hb.
    + intros Hc. apply Hiff in Hc. destruct (Hstop Hc) as [-> ->].
      split; [reflexivity|].
      destruct Hinv as [[_ [_ [_ Hnb]]] | [r [_ [_ [_ [_ [_ [_ [Hf _]]]]]]]]];
        [congruence | exact Hf].
    + intros ->. apply (explore_seen_all _ _ _ _ _ _ _ X).
Qed.

(** What a turn of the loop does to [successful_url], by the reply. *)
Lemma visit_fetch domain path st w c st1 w1 :
  visit domain path st w = (c, st1, w1) ->
  match requests_get (url_of domain path) w with
  | (Returned r, w') =>
      w1 = w' /\ c <> Raise
      /\ if (400 <=? status_code r)%Z then st1 = st /\ c = Next
         else successful_url st1 = successful_url (with_url st r)
  | (RequestException, w') => w1 = w' /\ st1 = st /\ c = Next
  | (OtherException, _) => c = Raise /\ st1 = st
  end.
Proof.
  unfold App.visit.
  destruct (requests_get (url_of domain path) w) as [[r| |] w2].
  - destruct (400 <=? status_code r)%Z.
    + intros H; injection H as <- <- <-. repeat split; discriminate.
    + destruct (detect (r_text r) (r_url r)) as [[h cf] sg].
      destruct (h && _).
      * destruct (String.eqb path "/" && _);
          intros H; injection H as <- <- <-; repeat split; discriminate.
      * intros H; injection H as <- <- <-. repeat split; discriminate.
  - intros H; injection H as <- <- <-. auto.
  - intros H; injection H as <- <- <-. auto.
Qed.

Section ResolvedUrl.

(** A reply of [requests] carries the URL it was fetched from, which is
    not empty. *)
Hypothesis url_not_empty :
  forall url w r w', requests_get url w = (Returned r, w') -> r_url r <> "".

Lemma with_url_recorded st r :
  url_truthy (successful_url st) = true ->
  with_url st r = st.
Proof. unfold with_url. now intros ->. Qed.

Lemma with_url_first st r url w w' :
  requests_get url w = (Returned r, w') ->
  url_truthy (successful_url st) = false ->
  successful_url (with_url st r) = Some (r_url r)
  /\ url_truthy (successful_url (with_url st r)) = true.
Proof.
  intros E Hst. unfold with_url. rewrite Hst. simpl.
  split; [reflexivity|].
  apply url_not_empty in E. now destruct (r_url r).
Qed.

Lemma explore_recorded domain paths :
  forall st w c st' w' seen,
    explore domain paths st w = (c, st', w', seen) ->
    url_truthy (successful_url st) = true ->
    successful_url st' = successful_url st.
Proof.
  induction paths as [|path rest IH]; intros st w c st' w' seen.
  - simpl. intros H; now injection H as <- <- <- <-.
  - rewrite explore_cons.
    destruct (visit domain path st w) as [[c1 st1] w1] eqn:V.
    intros X Hst.
    assert (H1 : successful_url st1 = successful_url st).
    { pose proof (visit_fetch _ _ _ _ _ _ _ V) as F.
      destruct (requests_get (url_of domain path) w) as [[r| |] w2].
      - destruct F as [_ [_ F]]. destruct (400 <=? status_code r)%Z.
        + now destruct F as [-> _].
        + now rewrite F, with_url_recorded.
      - now destruct F as [_ [-> _]].
      - now destruct F as [_ ->]. }
    destruct c1.
    + destruct (explore domain rest st1 w1) as [[[c2 st2] w2] seen2] eqn:X2.
      injection X as <- <- <- <-.
      rewrite <- H1. apply (IH _ _ _ _ _ _ X2). now rewrite H1.
    + now injection X as <- <- <- <-.
    + now injection X as <- <- <- <-.
Qed.

Lemma explore_first_success domain paths :
  forall st w c st' w' seen,
    explore domain paths st w = (c, st', w', seen) ->
    c <> Raise ->
    url_truthy (successful_url st) = false ->
    match first_success domain paths w with
    | Some u => successful_url st' = Some u
    | None => successful_url st' = successful_url st
    end.
Proof.
  induction paths as [|path rest IH]; intros st w c st' w' seen.
  - simpl. intros H; now injection H as <- <- <- <-.
  - rewrite explore_cons. cbn [App.first_success].
    destruct (visit domain path st w) as [[c1 st1] w1] eqn:V.
    pose proof (visit_fetch _ _ _ _ _ _ _ V) as F.
    destruct (requests_get (url_of domain path) w) as [[r| |] w2] eqn:E.
    + destruct F as [-> [Hc1 F]]. intros X Hc Hst.
      destruct (400 <=? status_code r)%Z.
      * destruct F as [-> ->].
        destruct (explore domain rest st w2) as [[[c2 st2] w3] seen2] eqn:X2.
        injection X as <- <- <- <-. apply (IH _ _ _ _ _ _ X2 Hc Hst).
      * destruct (with_url_first _ _ _ _ _ E Hst) as [Hu Ht].
        rewrite Hu in F.
        assert (Ht1 : url_truthy (successful_url st1) = true)
          by (rewrite F; rewrite Hu in Ht; exact Ht).
        destruct c1.
        -- destruct (explore domain rest st1 w2) as [[[c2 st2] w3] seen2] eqn:X2.
           injection X as <- <- <- <-.
           rewrite (explore_recorded _ _ _ _ _ _ _ _ X2 Ht1). exact F.
        -- now injection X as <- <- <- <-.
        -- congruence.
    + destruct F as [-> [-> ->]]. intros X Hc Hst.
      destruct (explore domain rest st w2) as [[[c2 st2] w3] seen2] eqn:X2.
      injection X as <- <- <- <-. apply (IH _ _ _ _ _ _ X2 Hc Hst).
    + destruct F as [-> ->]. intros X Hc. injection X as <- <- <- <-. congruence.
Qed.

(** C8.  The [url] of a record returned by [analyze_domain] is the URL
    of the first reply with a status below 400, in the order of
    [paths_to_check], whatever the pages score. *)
Theorem resolved_url_is_first_success domain w result w' :
  analyze_domain domain w = (Some (Some result), w') ->
  first_success domain paths_to_check w = Some (Result.url result).
Proof.
  unfold App.analyze_domain.
  destruct (explore domain paths_to_check explore_init w)
    as [[[c st] w1] seen] eqn:X.
  intros H.
  assert (Hc : c <> Raise) by (intros ->; discriminate).
  pose proof (explore_first_success _ _ _ _ _ _ _ _ X Hc eq_refl) as F.
  assert (Hres : successful_url st = Some (Result.url result)).
  { destruct c; try congruence;
      (destruct (successful_url st) as [u|]; [destruct (truthy u)|]);
      try discriminate; now injection H as <- <-. }
  destruct (first_success domain paths_to_check w) as [u|].
  - congruence.
  - rewrite Hres in F. discriminate.
Qed.

End ResolvedUrl.

Lemma explore_all_fail domain paths :
  forall st w c st' w' seen,
    explore domain paths st w = (c, st', w', seen) ->
    all_fail domain paths w ->
    st' = st.
Proof.
  induction paths as [|path rest IH]; intros st w c st' w' seen.
  - simpl. intros H; now injection H as <- <- <- <-.
  - rewrite explore_cons. cbn [App.all_fail].
    destruct (visit domain path st w) as [[c1 st1] w1] eqn:V.
    unfold App.visit in V.
    destruct (requests_get (url_of domain path) w) as [[r| |] w2] eqn:E.
    + intros X [Hs Hrest]. apply Z.leb_le in Hs. rewrite Hs in V.
      injection V as <- <- <-.
      destruct (explore domain rest st w2) as [[[c2 st2] w3] seen2] eqn:X2.
      injection X as <- <- <- <-. apply (IH _ _ _ _ _ _ X2 Hrest).
    + intros X Hrest. injection V as <- <- <-.
      destruct (explore domain rest st w2) as [[[c2 st2] w3] seen2] eqn:X2.
      injection X as <- <- <- <-. apply (IH _ _ _ _ _ _ X2 Hrest).
    + intros X _. injection V as <- <- <-. now injection X as <- <- <- <-.
Qed.

Section Counting.

Variable utcnow : World -> string.

Local Notation process_domain :=
  (App.process_domain parse World requests_get utcnow).

(** C7.  When every request for a domain fails, [process_domain]
    returns no record, leaves the rows of the CSV file as they are and
    counts the domain as an error: [processed] and [errors] grow by
    one, [without_newsletter] and [with_newsletter] keep their
    values. *)
Theorem no_fetch_is_an_error domain sh w :
  all_fail domain paths_to_check w ->
  exists sh' w',
    process_domain domain sh w = (None, sh', w')
    /\ csv_file sh' = csv_file sh
    /\ errors (stats sh') = (errors (stats sh) + 1)%Z
    /\ without_newsletter (stats sh') = without_newsletter (stats sh)
    /\ with_newsletter (stats sh') = with_newsletter (stats sh)
    /\ processed (stats sh') = (processed (stats sh) + 1)%Z.
Proof.
  intros Hfail. unfold App.process_domain, App.analyze_domain.
  destruct (explore domain paths_to_check explore_init w)
    as [[[c st] w1] seen] eqn:X.
  rewrite (explore_all_fail _ _ _ _ _ _ _ _ X Hfail). simpl.
  destruct c; eexists; eexists; (split; [reflexivity|]); simpl; auto.
Qed.

End Counting.

End CrawlFacts.

(** The root page scores 65: the loop stops after it. *)
Lemma early_exit_rule_witness :
  exists st w',
    explore parse_pages nat
      (scripted [reply 200 "https://example.org/" signup_html])
      "example.org" paths_to_check explore_init 0
    = (Break, st, w', ["/"])
    /\ max_confidence st = 65%Z
    /\ found_paths st = ["/"].
Proof.
  eexists. eexists. split; [vm_compute; reflexivity|].
  split; [reflexivity|].
  refine (proj2 (proj1 (proj2 (proj2
    (early_exit_rule parse_pages nat
       (scripted [reply 200 "https://example.org/" signup_html]) "example.org")
    0 Break _ 1 ["/"] _)) eq_refl)).
  vm_compute. reflexivity.
Defined.

(** A second page scoring 65, like the maximum, changes nothing. *)
Lemma maximum_replaced_only_by_greater_witness :
  let st := {| all_signals := ["/:form:email_input_type"];
               successful_url := Some "https://example.org/";
               max_confidence := 65;
               found_paths := ["/"] |} in
  exists c st' w',
    visit parse_pages nat
      (scripted [reply 200 "https://example.org/newsletter" signup_html])
      "example.org" "/newsletter" st 0 = (c, st', w')
    /\ max_confidence st' = 65%Z
    /\ found_paths st' = ["/"]
    /\ all_signals st' = ["/:form:email_input_type"].
Proof.
  intros st. eexists. eexists. eexists.
  split; [vm_compute; reflexivity|].
  refine (proj2 (maximum_replaced_only_by_greater parse_pages nat
             (scripted [reply 200 "https://example.org/newsletter" signup_html])
             "example.org" "/newsletter" st 0 _ _ _ _) _ eq_refl _).
  - vm_compute. reflexivity.
  - vm_compute. discriminate.
Defined.

(** A domain whose only page scores 20 is reported with confidence 0. *)
Lemma record_confidence_zero_or_classified_witness :
  exists result w',
    analyze_domain parse_pages nat
      (scripted [reply 200 "https://example.org/" digest_html])
      "example.org" 0 = (Some (Some result), w')
    /\ ~ (0 < Result.confidence result < 30)%Z
    /\ (Result.has_newsletter result = true <-> Result.confidence result <> 0%Z).
Proof.
  eexists. eexists. split; [vm_compute; reflexivity|].
  destruct (record_confidence_zero_or_classified parse_pages nat
              (scripted [reply 200 "https://example.org/" digest_html])
              "example.org" 0 _ _ eq_refl) as [_ [Hgap [Hflag _]]].
  split; [exact Hgap | exact Hflag].
Defined.

Lemma late_success_urls url n r n' :
  scripted late_success url n = (Returned r, n') -> r_url r <> "".
Proof.
  unfold scripted. intros H. injection H as H _.
  destruct n as [|[|[|n]]]; simpl in H; try discriminate;
    try (injection H as <-; discriminate).
  now destruct n.
Defined.

(** The first reply comes from [/newsletter], the maximum from
    [/subscribe]: the record has the URL of [/newsletter]. *)
Lemma resolved_url_is_first_success_witness :
  exists result w',
    analyze_domain parse_pages nat (scripted late_success) "example.org" 0
    = (Some (Some result), w')
    /\ Result.found_paths result = "/subscribe"
    /\ first_success nat (scripted late_success) "example.org" paths_to_check 0
       = Some (Result.url result).
Proof.
  eexists. eexists. split; [vm_compute; reflexivity|].
  split; [reflexivity|].
  refine (resolved_url_is_first_success parse_pages nat (scripted late_success)
            late_success_urls "example.org" 0 _ _ _).
  vm_compute. reflexivity.
Defined.

(** A domain that answers with statuses 404 and 500 or not at all. *)
Lemma no_fetch_is_an_error_witness :
  let sh := {| stats := {| processed := 7; with_newsletter := 2;
                           without_newsletter := 4; errors := 1 |};
               csv_file := init_csv |} in
  all_fail nat (scripted unreachable) "example.org" paths_to_check 0
  /\ exists sh' w',
       process_domain parse_pages nat (scripted unreachable) clock
         "example.org" sh 0 = (None, sh', w')
       /\ csv_file sh' = csv_file sh
       /\ errors (stats sh') = (errors (stats sh) + 1)%Z
       /\ without_newsletter (stats sh') = without_newsletter (stats sh)
       /\ with_newsletter (stats sh') = with_newsletter (stats sh)
       /\ processed (stats sh') = (processed (stats sh) + 1)%Z.
Proof.
  intros sh.
  assert (H : all_fail nat (scripted unreachable) "example.org" paths_to_check 0)
    by (simpl; repeat split; lia).
  split; [exact H|].
  exact (no_fetch_is_an_error parse_pages nat (scripted unreachable) clock
           "example.org" sh 0 H).
Defined.

End AppFacts.

(* ================================================================== *)
(** * Further properties of the built-ins *)

Module MorePyFacts.

Import Py PyFacts.

(** ** [split] and [join] *)

Lemma append_nil_r (s : string) : s ++ "" = s.
Proof. induction s; simpl; congruence. Qed.

Lemma append_assoc (a b c : string) : (a ++ b) ++ c = a ++ b ++ c.
Proof. induction a; simpl; congruence. Qed.

(** [c not in s] for a character. *)
Lemma contains_char_cons (c d : ascii) (s : string) :
  contains (String c "") (String d s) = Ascii.eqb d c || contains (String c "") s.
Proof.
  cbn [contains String.prefix].
  destruct (Ascii.ascii_dec c d) as [->|Hne].
  - rewrite Ascii.eqb_refl. now destruct s.
  - assert (E : Ascii.eqb d c = false) by (apply Ascii.eqb_neq; congruence).
    now rewrite E.
Qed.

Lemma split_aux_plain (sep : ascii) (x : string) :
  forall acc,
    contains (String sep "") x = false ->
    split_aux sep acc x = [acc ++ x].
Proof.
  induction x as [|d x IH]; intros acc H; simpl.
  - now rewrite append_nil_r.
  - rewrite contains_char_cons in H. apply orb_false_iff in H. destruct H as [Hd Hx].
    rewrite Hd, IH by exact Hx. now rewrite append_assoc.
Qed.

Lemma split_aux_piece (sep : ascii) (x rest : string) :
  forall acc,
    contains (String sep "") x = false ->
    split_aux sep acc (x ++ String sep rest)
    = (acc ++ x) :: split_aux sep "" rest.
Proof.
  induction x as [|d x IH]; intros acc H; simpl.
  - now rewrite Ascii.eqb_refl, append_nil_r.
  - rewrite contains_char_cons in H. apply orb_false_iff in H. destruct H as [Hd Hx].
    rewrite Hd, IH by exact Hx. now rewrite append_assoc.
Qed.

Lemma concat_cons2 (sep x y : string) (l : list string) :
  String.concat sep (x :: y :: l) = x ++ sep ++ String.concat sep (y :: l).
Proof. reflexivity. Qed.

(** Splitting what [join] made gives the pieces back, when there is at
    least one piece and no piece holds the separator. *)
Lemma split_join (sep : ascii) (l : list string) :
  l <> [] ->
  Forall (fun x => contains (String sep "") x = false) l ->
  split sep (join (String sep "") l) = l.
Proof.
  unfold split, join.
  induction l as [|x l IH]; intros Hne Hall; [congruence|].
  inversion Hall as [|? ? Hx Hl]; subst.
  destruct l as [|y l].
  - simpl. now rewrite split_aux_plain.
  - rewrite concat_cons2.
    change (String sep "" ++ String.concat (String sep "") (y :: l))
      with (String sep (String.concat (String sep "") (y :: l))).
    rewrite split_aux_piece by exact Hx.
    f_equal. apply IH; [discriminate | exact Hl].
Qed.

(** [split] never returns the empty list. *)
Lemma split_not_nil (sep : ascii) (s : string) : split sep s <> [].
Proof.
  unfold split. generalize EmptyString.
  induction s as [|c s IH]; intros acc; simpl; [discriminate|].
  destruct (Ascii.eqb c sep); [discriminate | apply IH].
Qed.

(** [join] of non-empty strings is empty only for no string at all. *)
Lemma join_empty_iff (sep : string) (l : list string) :
  Forall (fun x => x <> "") l ->
  (join sep l = "" <-> l = []).
Proof.
  intros Hall. unfold join. split.
  - destruct l as [|x l]; [reflexivity|].
    inversion Hall as [|? ? Hx _]; subst.
    destruct x as [|c x]; [congruence|].
    destruct l; discriminate.
  - now intros ->.
Qed.

(** ** [sorted] *)

Lemma insert_sorted_perm (x : string) (l : list string) :
  Permutation (insert_sorted x l) (x :: l).
Proof.
  induction l as [|y l IH]; simpl; [reflexivity|].
  destruct (String.leb x y); [reflexivity|].
  apply perm_trans with (y :: x :: l); [now apply perm_skip | apply perm_swap].
Qed.

Lemma sorted_perm (l : list string) : Permutation (sorted l) l.
Proof.
  induction l as [|x l IH]; simpl; [reflexivity|].
  apply perm_trans with (x :: sorted l);
    [apply insert_sorted_perm | now apply perm_skip].
Qed.

Lemma sorted_nil_iff (l : list string) : sorted l = [] <-> l = [].
Proof.
  split; [|now intros ->].
  intros H. pose proof (sorted_perm l) as P. rewrite H in P.
  now apply Permutation_nil in P.
Qed.

Lemma sorted_Forall (P : string -> Prop) (l : list string) :
  Forall P l -> Forall P (sorted l).
Proof.
  intros H. apply Forall_forall. intros x Hx.
  rewrite Forall_forall in H. apply H.
  apply (Permutation_in _ (sorted_perm l) Hx).
Qed.

(** ** [set_add] *)

Lemma set_add_not_nil (x : string) (s : list string) : set_add x s <> [].
Proof.
  unfold set_add. destruct (mem x s) eqn:E.
  - intros ->. discriminate.
  - now destruct s.
Qed.

Lemma set_add_In (x y : string) (s : list string) :
  In y (set_add x s) <-> y = x \/ In y s.
Proof.
  unfold set_add. destruct (mem x s) eqn:E.
  - apply mem_iff in E. split; [auto | intros [->|H]; auto].
  - rewrite in_app_iff. simpl. intuition congruence.
Qed.
(** ** [strip] *)

Lemma rstrip_cons (c : ascii) (s : string) :
  rstrip (String c s)
  = match rstrip s with
    | EmptyString => if is_space c then EmptyString else String c EmptyString
    | String d r => String c (String d r)
    end.
Proof. reflexivity. Qed.

Lemma rstrip_idem (s : string) : rstrip (rstrip s) = rstrip s.
Proof.
  induction s as [|c s IH]; [reflexivity|].
  rewrite rstrip_cons. destruct (rstrip s) as [|d r] eqn:E.
  - destruct (is_space c) eqn:Ec; [reflexivity|].
    rewrite rstrip_cons. cbn [rstrip]. now rewrite Ec.
  - rewrite rstrip_cons, IH. reflexivity.
Qed.

Lemma rstrip_head (c : ascii) (s : string) :
  is_space c = false -> exists r, rstrip (String c s) = String c r.
Proof.
  intros Hc. rewrite rstrip_cons. destruct (rstrip s) as [|d r].
  - rewrite Hc. now exists "".
  - now exists (String d r).
Qed.

Lemma lstrip_head (s : string) :
  lstrip s = "" \/ exists c r, lstrip s = String c r /\ is_space c = false.
Proof.
  induction s as [|c s IH]; [now left|].
  cbn [lstrip]. destruct (is_space c) eqn:Ec; [exact IH|].
  right. now exists c, s.
Qed.

(** Stripping twice is stripping once. *)
Lemma strip_idem (s : string) : strip (strip s) = strip s.
Proof.
  unfold strip.
  destruct (lstrip_head s) as [-> | [c [r [-> Hc]]]]; [reflexivity|].
  destruct (rstrip_head c r Hc) as [r' E].
  rewrite E. cbn [lstrip]. rewrite Hc, <- E. apply rstrip_idem.
Qed.

(** A string without white space is left as it is. *)
Lemma rstrip_plain (s : string) :
  Forall (fun c => is_space c = false) (list_ascii_of_string s) ->
  rstrip s = s.
Proof.
  induction s as [|c s IH]; [reflexivity|].
  cbn [list_ascii_of_string]. intros H. inversion H as [|? ? Hc Hs]; subst.
  rewrite rstrip_cons, (IH Hs). destruct s; [now rewrite Hc | reflexivity].
Qed.

Lemma strip_plain (s : string) :
  Forall (fun c => is_space c = false) (list_ascii_of_string s) ->
  strip s = s.
Proof.
  intros H. unfold strip.
  assert (E : lstrip s = s).
  { destruct s as [|c s]; [reflexivity|].
    cbn [list_ascii_of_string] in H. inversion H as [|? ? Hc _]; subst.
    cbn [lstrip]. now rewrite Hc. }
  rewrite E. now apply rstrip_plain.
Qed.

(** ** Loops *)

Lemma fold_left_invariant {A B : Type} (P : A -> Prop) (f : A -> B -> A)
  (l : list B) :
  (forall a b, P a -> P (f a b)) ->
  forall a, P a -> P (fold_left f l a).
Proof.
  intros Hstep. induction l as [|b l IH]; intros a Ha; simpl; auto.
Qed.

End MorePyFacts.

(* ================================================================== *)
(** * Further properties of the scanner *)

Module MoreAppFacts.

Import Py Soup App PyFacts AppFacts MorePyFacts Source Spec Examples.

(** ** [detect_newsletter] *)

(** A property of the two accumulators that every signal found keeps:
    each signal has a name and a positive weight. *)
Local Notation kept_by_hits P :=
  (forall sig w sc, sig <> "" -> (0 < w)%Z -> P sc -> P (hit sig w sc)).

Lemma scan_form_from (P : Score -> Prop) (sc : Score) (form : Node) :
  kept_by_hits P ->
  P (match find_all ["input"] [("type", "email")] form with
     | [] => sc
     | _ => hit "form:email_input_type" 30 sc
     end) ->
  P (scan_form sc form).
Proof.
  intros Hhit H. unfold scan_form.
  apply fold_left_invariant.
  { intros a b Ha. destruct (any_in _ _); [apply Hhit; [discriminate|lia|exact Ha] | exact Ha]. }
  destruct (any_in _ (lower (get form "action" ""))).
  - apply Hhit; [discriminate|lia|].
    apply fold_left_invariant; [|exact H].
    intros a b Ha. destruct (any_in _ _); [apply Hhit; [discriminate|lia|exact Ha] | exact Ha].
  - apply fold_left_invariant; [|exact H].
    intros a b Ha. destruct (any_in _ _); [apply Hhit; [discriminate|lia|exact Ha] | exact Ha].
Qed.

Lemma scan_form_keeps (P : Score -> Prop) :
  kept_by_hits P -> forall sc form, P sc -> P (scan_form sc form).
Proof.
  intros Hhit sc form H. apply scan_form_from; [exact Hhit|].
  destruct (find_all _ _ form); [exact H | apply Hhit; [discriminate|lia|exact H]].
Qed.

Lemma scan_patterns_keeps (P : Score -> Prop) text :
  kept_by_hits P -> forall sc, P sc -> P (scan_patterns text sc).
Proof.
  intros Hhit sc H. unfold scan_patterns.
  apply fold_left_invariant; [|exact H].
  intros a b Ha. destruct (Re.search b text);
    [apply Hhit; [discriminate|lia|exact Ha] | exact Ha].
Qed.

Lemma scan_services_keeps (P : Score -> Prop) html_lower :
  kept_by_hits P -> forall sc, P sc -> P (scan_services html_lower sc).
Proof.
  intros Hhit sc H. unfold scan_services.
  apply fold_left_invariant; [|exact H].
  intros a b Ha. destruct (contains b html_lower);
    [apply Hhit; [discriminate|lia|exact Ha] | exact Ha].
Qed.

Lemma scan_iframes_keeps (P : Score -> Prop) soup :
  kept_by_hits P -> forall sc, P sc -> P (scan_iframes soup sc).
Proof.
  intros Hhit sc H. unfold scan_iframes.
  apply fold_left_invariant; [|exact H].
  intros a b Ha. destruct (any_in _ _);
    [apply Hhit; [discriminate|lia|exact Ha] | exact Ha].
Qed.

(** The value [detect_newsletter] returns, by its accumulators. *)
Lemma detect_by_forms (P : Score -> Prop) parse html url :
  kept_by_hits P ->
  P (fold_left scan_form (find_all ["form"] [] (parse html)) ([], 0%Z)) ->
  exists sc,
    P sc
    /\ detect_newsletter parse html url
       = ((30 <=? snd sc)%Z, snd sc, join ";" (sorted (fst sc))).
Proof.
  intros Hhit Hforms. unfold detect_newsletter. cbv zeta.
  eexists. split; [|reflexivity].
  apply scan_iframes_keeps; [exact Hhit|].
  apply scan_services_keeps; [exact Hhit|].
  apply scan_patterns_keeps; [exact Hhit|].
  exact Hforms.
Qed.

Lemma detect_by_score (P : Score -> Prop) parse html url :
  kept_by_hits P ->
  P ([], 0%Z) ->
  exists sc,
    P sc
    /\ detect_newsletter parse html url
       = ((30 <=? snd sc)%Z, snd sc, join ";" (sorted (fst sc))).
Proof.
  intros Hhit H0. apply detect_by_forms; [exact Hhit|].
  apply fold_left_invariant; [|exact H0].
  intros a b Ha. now apply scan_form_keeps.
Qed.

(** X1.  The confidence is never negative, and it is 0 exactly when no
    signal is reported. *)
Theorem no_confidence_without_signal parse html url :
  (0 <= confidence_of (detect_newsletter parse html url))%Z
  /\ (signals_of (detect_newsletter parse html url) = ""
      <-> confidence_of (detect_newsletter parse html url) = 0%Z).
Proof.
  destruct (detect_by_score
              (fun sc => (0 <= snd sc)%Z
                         /\ (fst sc = [] <-> snd sc = 0%Z)
                         /\ Forall (fun s => s <> "") (fst sc))
              parse html url) as [sc [[Hpos [Hiff Hall]] ->]].
  - intros sig w sc Hsig Hw [Hpos [Hiff Hall]]. unfold hit. cbn [fst snd].
    split; [lia|]. split.
    + split; [intros H; now apply set_add_not_nil in H | lia].
    + apply Forall_forall. intros s Hs. apply set_add_In in Hs.
      destruct Hs as [->|Hs]; [exact Hsig|].
      rewrite Forall_forall in Hall. now apply Hall.
  - cbn [fst snd]. split; [lia|]. split; [tauto | constructor].
  - unfold confidence_of, signals_of. cbn [fst snd]. split; [exact Hpos|].
    rewrite join_empty_iff by now apply sorted_Forall.
    now rewrite sorted_nil_iff.
Qed.

(** X2.  A page with a form holding an input of type [email] is
    classified, whatever else the page holds. *)
Theorem email_form_is_classified parse html url form :
  In form (find_all ["form"] [] (parse html)) ->
  find_all ["input"] [("type", "email")] form <> [] ->
  classified (detect_newsletter parse html url) = true
  /\ (30 <= confidence_of (detect_newsletter parse html url))%Z.
Proof.
  intros Hin Hemail.
  apply in_split in Hin. destruct Hin as [forms1 [forms2 Hforms]].
  destruct (detect_by_forms (fun sc => (30 <= snd sc)%Z) parse html url)
    as [sc [H30 ->]].
  - intros sig w sc _ Hw H. unfold hit. cbn [snd]. lia.
  - rewrite Hforms, fold_left_app. cbn [fold_left].
    apply fold_left_invariant.
    { intros a b Ha. apply scan_form_keeps; [|exact Ha].
      intros sig w sc _ Hw H. unfold hit. cbn [snd]. lia. }
    assert (H0 : (0 <= snd (fold_left scan_form forms1 ([], 0%Z)))%Z).
    { apply fold_left_invariant; [|cbn [snd]; lia].
      intros a b Ha. apply scan_form_keeps; [|exact Ha].
      intros sig w sc _ Hw H. unfold hit. cbn [snd]. lia. }
    revert H0. generalize (fold_left scan_form forms1 ([], 0%Z)). intros sc0 H0.
    assert (X : (snd sc0 + 30 <= snd (scan_form sc0 form))%Z).
    { apply (scan_form_from (fun sc => (snd sc0 + 30 <= snd sc)%Z)).
      - intros sig w sc _ Hw H. unfold hit. cbn [snd]. lia.
      - destruct (find_all ["input"] [("type", "email")] form); [congruence|].
        unfold hit. cbn [snd]. lia. }
    lia.
  - unfold classified, confidence_of. cbn [fst snd].
    split; [now apply Z.leb_le | exact H30].
Qed.
(** A page with the subscription form of the examples. *)
Lemma email_form_is_classified_witness :
  classified (detect_newsletter parse_pages signup_html "https://example.org/") = true
  /\ (30 <= confidence_of
              (detect_newsletter parse_pages signup_html "https://example.org/"))%Z.
Proof.
  apply (email_form_is_classified parse_pages signup_html "https://example.org/"
           signup_form).
  - vm_compute. left. reflexivity.
  - vm_compute. discriminate.
Defined.

(** ** [fetch_domains_from_tranco] *)

Lemma tranco_lines_bound lines :
  forall count,
    (Z.of_nat (length (tranco_lines lines count))
     <= Z.max 0 (TRANCO_LIST_SIZE - count))%Z.
Proof.
  induction lines as [|line rest IH]; intros count; cbn [tranco_lines].
  - simpl. lia.
  - destruct (TRANCO_LIST_SIZE <=? count)%Z eqn:E; [simpl; lia|].
    apply Z.leb_gt in E.
    destruct (2 <=? length (split "," line))%nat.
    + destruct (truthy (strip (nth 1 (split "," line) ""))).
      * cbn [length]. specialize (IH (count + 1)%Z). lia.
      * specialize (IH count). lia.
    + specialize (IH count). lia.
Qed.

Lemma tranco_lines_domains lines :
  forall count,
    Forall (fun domain =>
              domain <> "" /\ strip domain = domain
              /\ exists line,
                   In line lines
                   /\ domain = strip (nth 1 (split "," line) ""))
           (tranco_lines lines count).
Proof.
  induction lines as [|line rest IH]; intros count; cbn [tranco_lines].
  - constructor.
  - assert (Hrest : forall c,
               Forall (fun domain =>
                         domain <> "" /\ strip domain = domain
                         /\ exists l,
                              In l (line :: rest)
                              /\ domain = strip (nth 1 (split "," l) ""))
                      (tranco_lines rest c)).
    { intros c. eapply Forall_impl; [|apply (IH c)].
      intros d [H1 [H2 [l [Hl Hd]]]]. repeat split; auto.
      exists l. split; [now right | exact Hd]. }
    destruct (TRANCO_LIST_SIZE <=? count)%Z; [constructor|].
    destruct (2 <=? length (split "," line))%nat; [|apply Hrest].
    destruct (truthy (strip (nth 1 (split "," line) ""))) eqn:E; [|apply Hrest].
    constructor; [|apply Hrest].
    split; [now destruct (strip (nth 1 (split "," line) ""))|].
    split; [apply strip_idem|].
    exists line. split; [now left | reflexivity].
Qed.

(** X4.  Whatever the download gives, at most [TRANCO_LIST_SIZE] domains
    are yielded, none of them blank or with white space around it, and
    the cut at [MAX_DOMAINS] removes none: [run] submits every one. *)
Theorem candidate_domains_bounded (download : option string) :
  (Z.of_nat (length (fetch_domains_from_tranco download)) <= TRANCO_LIST_SIZE)%Z
  /\ Forall (fun domain => domain <> "" /\ strip domain = domain)
            (fetch_domains_from_tranco download)
  /\ submitted download = fetch_domains_from_tranco download.
Proof.
  assert (Hlen : (Z.of_nat (length (fetch_domains_from_tranco download))
                  <= TRANCO_LIST_SIZE)%Z).
  { destruct download as [content|]; cbn [fetch_domains_from_tranco].
    - pose proof (tranco_lines_bound
                    (split (ascii_of_nat 10) (strip content)) 0) as H.
      unfold TRANCO_LIST_SIZE in *. lia.
    - vm_compute. discriminate. }
  split; [exact Hlen|]. split.
  - destruct download as [content|]; cbn [fetch_domains_from_tranco].
    + eapply Forall_impl; [|apply tranco_lines_domains].
      intros d [H1 [H2 _]]. auto.
    + unfold generate_common_domains, common_words, tlds. cbn [flat_map map app].
      repeat (constructor; [split; [discriminate | reflexivity]|]).
      constructor.
  - unfold submitted. apply firstn_all2.
    unfold TRANCO_LIST_SIZE, MAX_DOMAINS in *. lia.
Qed.

(** X5.  Every domain taken from a downloaded list is the second field
    of one of its lines, without the white space around it; the
    fallback after a failed download is the fixed list of 110 names,
    all different. *)
Theorem candidate_domains_origin :
  (forall content,
     Forall (fun domain =>
               exists line,
                 In line (split (ascii_of_nat 10) (strip content))
                 /\ domain = strip (nth 1 (split "," line) ""))
            (fetch_domains_from_tranco (Some content)))
  /\ length (fetch_domains_from_tranco None) = 110
  /\ NoDup (fetch_domains_from_tranco None).
Proof.
  split; [|split].
  - intros content. cbn [fetch_domains_from_tranco].
    eapply Forall_impl; [|apply tranco_lines_domains].
    intros d [_ [_ H]]. exact H.
  - reflexivity.
  - replace (fetch_domains_from_tranco None)
      with (nodup string_dec (fetch_domains_from_tranco None))
      by (vm_compute; reflexivity).
    apply NoDup_nodup.
Qed.

(** ** [update_stats] and [process_domain] *)

Lemma update_stats_consistent has_newsletter error stats :
  stats_consistent stats ->
  stats_consistent (update_stats has_newsletter error stats).
Proof.
  unfold stats_consistent, update_stats.
  destruct error; [|destruct has_newsletter]; cbn; lia.
Qed.

Section MoreCrawlFacts.

Variable parse : string -> Node.
Variable World : Type.
Variable requests_get : string -> World -> GetOutcome * World.
Variable utcnow : World -> string.

Local Notation visit := (App.visit parse World requests_get).
Local Notation explore := (App.explore parse World requests_get).
Local Notation analyze_domain := (App.analyze_domain parse World requests_get).
Local Notation process_domain :=
  (App.process_domain parse World requests_get utcnow).

(** X6.  Each call of [process_domain] counts its domain once, in one
    counter, and keeps [processed] equal to the sum of the three others.
    A returned record has been appended to the file as one row of seven
    cells and counted by its [has_newsletter]; without a record the
    file is unchanged and the error counter grows. *)
Theorem process_domain_accounts domain sh w result sh' w' :
  process_domain domain sh w = (result, sh', w') ->
  (stats_consistent (stats sh) -> stats_consistent (stats sh'))
  /\ processed (stats sh') = (processed (stats sh) + 1)%Z
  /\ match result with
     | Some r =>
         (exists now,
             csv_file sh'
             = (csv_file sh
                ++ [[now; Result.domain r; Result.url r;
                     str_bool (Result.has_newsletter r);
                     str_int (Result.confidence r);
                     Result.signals r; Result.found_paths r]])%list)
         /\ errors (stats sh') = errors (stats sh)
         /\ (if Result.has_newsletter r
             then with_newsletter (stats sh') = (with_newsletter (stats sh) + 1)%Z
                  /\ without_newsletter (stats sh') = without_newsletter (stats sh)
             else without_newsletter (stats sh') = (without_newsletter (stats sh) + 1)%Z
                  /\ with_newsletter (stats sh') = with_newsletter (stats sh))
     | None =>
         csv_file sh' = csv_file sh
         /\ errors (stats sh') = (errors (stats sh) + 1)%Z
         /\ with_newsletter (stats sh') = with_newsletter (stats sh)
         /\ without_newsletter (stats sh') = without_newsletter (stats sh)
     end.
Proof.
  unfold App.process_domain.
  destruct (analyze_domain domain w) as [[[r|]|] w1];
    intros H; injection H as <- <- <-; unfold stats_consistent.
  - split; [|split; [|split; [exists (utcnow w1); reflexivity|]]];
      destruct (Result.has_newsletter r); cbn; intros; try split; lia.
  - cbn. repeat split; intros; lia.
  - cbn. repeat split; intros; lia.
Qed.

(** ** [analyze_domain] *)

(** X7.  The loop never lowers the running maximum and never forgets a
    contributing path, from whatever values it starts. *)
Theorem exploration_is_monotone domain paths :
  forall st w c st' w' seen,
    explore domain paths st w = (c, st', w', seen) ->
    (max_confidence st <= max_confidence st')%Z
    /\ incl (found_paths st) (found_paths st').
Proof.
  induction paths as [|path rest IH]; intros st w c st' w' seen.
  - simpl. intros H; injection H as <- <- <- <-. split; [lia | apply incl_refl].
  - rewrite explore_cons.
    destruct (visit domain path st w) as [[c1 st1] w1] eqn:V.
    assert (Hstep : (max_confidence st <= max_confidence st1)%Z
                    /\ incl (found_paths st) (found_paths st1)).
    { destruct (visit_inv _ _ _ _ _ _ _ _ _ _ V)
        as [[Hm [Hf _]] | [r [_ [_ [_ [_ [Hlt [Hm [Hf _]]]]]]]]].
      - rewrite Hm, Hf. split; [lia | apply incl_refl].
      - rewrite Hm, Hf. split; [lia|].
        intros p Hp. apply set_add_In. now right. }
    destruct Hstep as [Hm Hf].
    destruct c1.
    + destruct (explore domain rest st1 w1) as [[[c2 st2] w2] seen2] eqn:X.
      intros H; injection H as <- <- <- <-.
      destruct (IH _ _ _ _ _ _ X) as [Hm2 Hf2].
      split; [lia | now apply incl_tran with (found_paths st1)].
    + intros H; injection H as <- <- <- <-. auto.
    + intros H; injection H as <- <- <- <-. auto.
Qed.

(** What the loop keeps about the contributing paths: they are among
    the paths requested, there is none exactly while the maximum is 0,
    and without them there are no signals. *)
Local Notation paths_sound st :=
  ((found_paths st = [] <-> max_confidence st = 0%Z)
   /\ Z.le 0 (max_confidence st)
   /\ (found_paths st = [] -> all_signals st = [])).

Lemma explore_paths domain paths :
  forall st w c st' w' seen,
    explore domain paths st w = (c, st', w', seen) ->
    (exists rest, paths = (seen ++ rest)%list)
    /\ incl (found_paths st') (found_paths st ++ seen)
    /\ (paths_sound st -> paths_sound st').
Proof.
  induction paths as [|path rest IH]; intros st w c st' w' seen.
  - simpl. intros H; injection H as <- <- <- <-.
    split; [now exists []|]. split; [|auto].
    rewrite app_nil_r. apply incl_refl.
  - rewrite explore_cons.
    destruct (visit domain path st w) as [[c1 st1] w1] eqn:V.
    assert (Hstep : incl (found_paths st1) (found_paths st ++ [path])
                    /\ (paths_sound st -> paths_sound st1)).
    { destruct (visit_inv _ _ _ _ _ _ _ _ _ _ V)
        as [[Hm [Hf [Ha _]]] | [r [_ [_ [_ [H30 [Hlt [Hm [Hf _]]]]]]]]].
      - rewrite Hm, Hf, Ha. split; [apply incl_appl, incl_refl | auto].
      - rewrite Hm, Hf. split.
        + intros p Hp. apply set_add_In in Hp. apply in_app_iff.
          destruct Hp as [->|Hp]; [right; now left | now left].
        + intros _. split; [|split; [lia|]].
          * split; [intros H; now apply set_add_not_nil in H | lia].
          * intros H. now apply set_add_not_nil in H. }
    destruct Hstep as [Hf Hs].
    destruct c1.
    + destruct (explore domain rest st1 w1) as [[[c2 st2] w2] seen2] eqn:X.
      intros H; injection H as <- <- <- <-.
      destruct (IH _ _ _ _ _ _ X) as [[rest2 ->] [Hf2 Hs2]].
      split; [now exists rest2|]. split; [|auto].
      intros p Hp. apply Hf2 in Hp. apply in_app_iff in Hp.
      destruct Hp as [Hp|Hp].
      * apply Hf in Hp. apply in_app_iff in Hp. apply in_app_iff.
        destruct Hp as [Hp|[<-|[]]]; [now left | right; now left].
      * apply in_app_iff. right. now right.
    + intros H; injection H as <- <- <- <-.
      split; [now exists rest|]. auto.
    + intros H; injection H as <- <- <- <-.
      split; [now exists rest|]. auto.
Qed.


(** The record, by the final values of the loop. *)
Lemma record_paths domain w result w' :
  analyze_domain domain w = (Some (Some result), w') ->
  exists st,
    incl (found_paths st) paths_to_check
    /\ paths_sound st
    /\ result
       = {| Result.domain := domain;
            Result.url := Result.url result;
            Result.has_newsletter := (30 <=? max_confidence st)%Z;
            Result.confidence := max_confidence st;
            Result.signals :=
              match all_signals st with
              | [] => ""
              | _ => join ";" (sorted (all_signals st))
              end;
            Result.found_paths :=
              match found_paths st with
              | [] => ""
              | _ => join ";" (sorted (found_paths st))
              end |}
    /\ Result.url result <> ""
    /\ (max_confidence st = 0%Z \/ (30 <= max_confidence st)%Z).
Proof.
  unfold App.analyze_domain.
  destruct (explore domain paths_to_check explore_init w)
    as [[[c st] w1] seen] eqn:X.
  destruct (explore_paths _ _ _ _ _ _ _ _ X) as [[rest Hrest] [Hincl Hsound]].
  assert (Hgap : max_confidence st = 0%Z \/ (30 <= max_confidence st)%Z).
  { destruct (explore_reported parse World requests_get _ _ _ _ _ _ _ _ X)
      as [H0 | [H30 _]]; [now left | now left | now right]. }
  intros H. exists st.
  split.
  { intros p Hp. apply Hincl in Hp. rewrite Hrest. apply in_app_iff. now left. }
  split.
  { apply Hsound. cbn. repeat split; auto; lia. }
  assert (Hres : exists u, u <> "" /\ successful_url st = Some u
                           /\ Some (Some result)
                              = Some (Some
                                  {| Result.domain := domain;
                                     Result.url := u;
                                     Result.has_newsletter := (30 <=? max_confidence st)%Z;
                                     Result.confidence := max_confidence st;
                                     Result.signals :=
                                       match all_signals st with
                                       | [] => ""
                                       | _ => join ";" (sorted (all_signals st))
                                       end;
                                     Result.found_paths :=
                                       match found_paths st with
                                       | [] => ""
                                       | _ => join ";" (sorted (found_paths st))
                                       end |})).
  { destruct c; try discriminate;
      (destruct (successful_url st) as [u|]; [destruct (truthy u) eqn:Tu|]);
      try discriminate; injection H as <- _; exists u;
      (split; [now destruct u | split; reflexivity]). }
  destruct Hres as [u [Hu [_ Hr]]]. injection Hr as ->. cbn.
  split; [reflexivity|]. split; [exact Hu | exact Hgap].
Qed.

Lemma joined_paths_not_empty (paths : list string) :
  incl paths paths_to_check -> paths <> [] ->
  join ";" (sorted paths) <> "".
Proof.
  intros Hincl Hne H.
  assert (HF : Forall (fun p => p <> "") (sorted paths)).
  { apply sorted_Forall. apply Forall_forall. intros p Hp.
    apply Hincl in Hp. cbn in Hp.
    destruct Hp as [<-|[<-|[<-|[<-|[<-|[]]]]]]; discriminate. }
  apply (proj1 (join_empty_iff _ _ HF)) in H.
  apply (proj1 (sorted_nil_iff _)) in H. contradiction.
Qed.

(** X9.  In a record, [has_newsletter] is true exactly when contributing
    paths are reported.  A record that is not classified reports
    nothing of what was found below the threshold: its confidence is 0
    and its signals and paths are empty.  The record is for the domain
    asked and its URL is not empty. *)
Theorem negative_record_is_blank domain w result w' :
  analyze_domain domain w = (Some (Some result), w') ->
  (Result.has_newsletter result = true <-> Result.found_paths result <> "")
  /\ (Result.has_newsletter result = false ->
      Result.confidence result = 0%Z
      /\ Result.signals result = ""
      /\ Result.found_paths result = "")
  /\ Result.domain result = domain
  /\ Result.url result <> "".
Proof.
  intros H.
  destruct (record_paths _ _ _ _ H)
    as [st [Hincl [[Hiff [Hpos Hsig]] [-> [Hurl Hgap]]]]].
  cbn [Result.has_newsletter Result.found_paths Result.confidence
       Result.signals Result.domain Result.url] in *.
  split; [|split; [|split; [reflexivity | exact Hurl]]].
  - rewrite Z.leb_le. split.
    + intros H30. destruct (found_paths st) as [|p ps] eqn:E.
      * assert (max_confidence st = 0%Z) by now apply Hiff. lia.
      * apply joined_paths_not_empty; [exact Hincl | discriminate].
    + intros Hp. destruct (found_paths st) as [|p ps] eqn:E; [congruence|].
      destruct Hgap as [H0|H30]; [|exact H30].
      apply Hiff in H0. discriminate.
  - intros Hneg. apply Z.leb_gt in Hneg.
    assert (H0 : max_confidence st = 0%Z) by lia.
    assert (Hf : found_paths st = []) by now apply Hiff.
    rewrite Hf, (Hsig Hf). auto.
Qed.

End MoreCrawlFacts.
(** A domain whose first reply comes from [/newsletter]. *)
Lemma process_domain_accounts_witness :
  let sh := {| stats := {| processed := 7; with_newsletter := 2;
                           without_newsletter := 4; errors := 1 |};
               csv_file := init_csv |} in
  exists r sh' w',
    process_domain parse_pages nat (scripted late_success) clock
      "example.org" sh 0 = (Some r, sh', w')
    /\ stats_consistent (stats sh')
    /\ processed (stats sh') = 8%Z
    /\ length (csv_file sh') = 2.
Proof.
  intros sh. eexists. eexists. eexists.
  split; [vm_compute; reflexivity|].
  destruct (process_domain_accounts parse_pages nat (scripted late_success) clock
              "example.org" sh 0 _ _ _ eq_refl) as [Hc [Hp [[now Hrow] _]]].
  split; [apply Hc; vm_compute; reflexivity|].
  split; [exact Hp | reflexivity].
Defined.

Lemma exploration_is_monotone_witness :
  exists c st' w' seen,
    explore parse_pages nat (scripted late_success) "example.org"
      paths_to_check explore_init 0 = (c, st', w', seen)
    /\ (0 <= max_confidence st')%Z.
Proof.
  eexists. eexists. eexists. eexists.
  split; [vm_compute; reflexivity|].
  exact (proj1 (exploration_is_monotone parse_pages nat (scripted late_success)
                  "example.org" paths_to_check explore_init 0 _ _ _ _ eq_refl)).
Defined.


(** A domain whose only page scores 20. *)
Lemma negative_record_is_blank_witness :
  exists result w',
    analyze_domain parse_pages nat
      (scripted [reply 200 "https://example.org/" digest_html])
      "example.org" 0 = (Some (Some result), w')
    /\ Result.confidence result = 0%Z
    /\ Result.signals result = ""
    /\ Result.found_paths result = "".
Proof.
  eexists. eexists. split; [vm_compute; reflexivity|].
  destruct (negative_record_is_blank parse_pages nat
              (scripted [reply 200 "https://example.org/" digest_html])
              "example.org" 0 _ _ eq_refl) as [_ [Hneg _]].
  apply Hneg. reflexivity.
Defined.

(** ** The patterns *)

Lemma match_here_star (a : Re.Atom) (rest : list Re.Item) (s : string) :
  Re.match_here ((a, true) :: rest) s
  = Re.match_here rest s
    || match s with
       | EmptyString => false
       | String c s' => Re.atom_matches a c && Re.match_here ((a, true) :: rest) s'
       end.
Proof. destruct s; reflexivity. Qed.

Lemma match_here_sound (items : list Re.Item) :
  forall s,
    Re.match_here items s = true ->
    exists matched after, s = matched ++ after /\ denotes items matched.
Proof.
  induction items as [|[a starred] rest IH]; intros s.
  - intros _. exists "", s. split; [reflexivity | constructor].
  - destruct starred.
    + induction s as [|c s IHs]; rewrite match_here_star.
      * rewrite orb_false_r. intros H. apply IH in H.
        destruct H as [m [after [Hs Hd]]]. exists m, after.
        split; [exact Hs | now constructor].
      * intros H. apply orb_true_iff in H. destruct H as [H|H].
        -- apply IH in H. destruct H as [m [after [Hs Hd]]]. exists m, after.
           split; [exact Hs | now constructor].
        -- apply andb_true_iff in H. destruct H as [Hc H].
           apply IHs in H. destruct H as [m [after [-> Hd]]].
           exists (String c m), after. split; [reflexivity|].
           now apply denotes_star_more.
    + destruct s as [|c s]; cbn [Re.match_here]; [discriminate|].
      intros H. apply andb_true_iff in H. destruct H as [Hc H].
      apply IH in H. destruct H as [m [after [-> Hd]]].
      exists (String c m), after. split; [reflexivity | now constructor].
Qed.

Lemma match_here_complete (items : list Re.Item) (matched : string) :
  denotes items matched ->
  forall after, Re.match_here items (matched ++ after) = true.
Proof.
  induction 1 as [|a c rest s Hc Hd IH|a rest s Hd IH|a c rest s Hc Hd IH];
    intros after.
  - reflexivity.
  - cbn [append Re.match_here]. now rewrite Hc, IH.
  - rewrite match_here_star, IH. reflexivity.
  - cbn [append]. rewrite match_here_star, Hc, IH. cbn. apply orb_true_r.
Qed.

(** The items are found in a text exactly when they describe some
    part of it. *)
Lemma search_items_denotes (items : list Re.Item) (text : string) :
  Re.search_items items text = true
  <-> exists before matched after,
        text = before ++ matched ++ after /\ denotes items matched.
Proof.
  induction text as [|c text IH]; cbn [Re.search_items].
  - rewrite orb_false_r. split.
    + intros H. apply match_here_sound in H.
      destruct H as [m [after [Hs Hd]]]. now exists "", m, after.
    + intros [[|b before] [m [after [Hs Hd]]]]; [|discriminate].
      cbn [append] in Hs. rewrite Hs. now apply match_here_complete.
  - rewrite orb_true_iff, IH. split.
    + intros [H | [before [m [after [-> Hd]]]]].
      * apply match_here_sound in H.
        destruct H as [m [after [Hs Hd]]]. now exists "", m, after.
      * now exists (String c before), m, after.
    + intros [[|b before] [m [after [Hs Hd]]]].
      * left. cbn [append] in Hs. rewrite Hs. now apply match_here_complete.
      * right. cbn [append] in Hs. injection Hs as -> ->.
        now exists before, m, after.
Qed.

Lemma on_one_line_nil : on_one_line "".
Proof.
  intros [[|b before] [after H]]; discriminate.
Qed.

Lemma on_one_line_cons (c : ascii) (gap : string) :
  on_one_line (String c gap) <-> c <> Re.newline /\ on_one_line gap.
Proof.
  unfold on_one_line, occurs_in. split.
  - intros H. split.
    + intros ->. apply H. now exists "", gap.
    + intros [before [after ->]]. apply H. now exists (String c before), after.
  - intros [Hc H] [[|b before] [after E]]; cbn [append] in E.
    + injection E as -> _. now apply Hc.
    + injection E as _ ->. apply H. now exists before, after.
Qed.

(** A word of the pattern matches itself. *)
Lemma denotes_literal (word : string) (rest : list Re.Item) :
  forall m,
    denotes (literal word ++ rest) m
    <-> exists m', m = word ++ m' /\ denotes rest m'.
Proof.
  unfold literal.
  induction word as [|c word IH]; intros m; cbn [list_ascii_of_string map app].
  - split; [intros H; now exists m | now intros [m' [-> H]]].
  - split.
    + intros H. inversion H as [|a c' r s Hc Hd| |]; subst.
      apply IH in Hd. destruct Hd as [m' [-> Hd]].
      cbn [Re.atom_matches] in Hc. apply Ascii.eqb_eq in Hc. subst c'.
      now exists m'.
    + intros [m' [-> Hd]]. cbn [append]. constructor.
      * cbn [Re.atom_matches]. apply Ascii.eqb_refl.
      * apply IH. now exists m'.
Qed.

(** [.*] matches any stretch of one line. *)
Lemma denotes_gap (rest : list Re.Item) (m : string) :
  denotes ((Re.AnyChar, true) :: rest) m
  <-> exists gap m', m = gap ++ m' /\ on_one_line gap /\ denotes rest m'.
Proof.
  split.
  - remember ((Re.AnyChar, true) :: rest) as items eqn:E.
    induction 1 as [|a c r s Hc Hd IH|a r s Hd IH|a c r s Hc Hd IH];
      try discriminate; injection E as -> ->.
    + exists "", s. split; [reflexivity|]. split; [apply on_one_line_nil | exact Hd].
    + destruct (IH eq_refl) as [gap [m' [-> [Hg Hm]]]].
      exists (String c gap), m'. split; [reflexivity|]. split; [|exact Hm].
      apply on_one_line_cons. split; [|exact Hg].
      cbn [Re.atom_matches] in Hc. apply negb_true_iff in Hc.
      now apply Ascii.eqb_neq in Hc.
  - intros [gap [m' [-> [Hg Hm]]]].
    induction gap as [|c gap IH]; cbn [append].
    + now apply denotes_star_none.
    + apply on_one_line_cons in Hg. destruct Hg as [Hc Hg].
      apply denotes_star_more; [|now apply IH].
      cbn [Re.atom_matches]. apply negb_true_iff. now apply Ascii.eqb_neq.
Qed.

Lemma denotes_gaps_then (words : list string) :
  forall s,
    (exists matched after, s = matched ++ after /\ denotes (gaps_then words) matched)
    <-> then_words words s.
Proof.
  induction words as [|word rest IH]; intros s; cbn [gaps_then then_words].
  - split; [auto|]. intros _. exists "", s. split; [reflexivity | constructor].
  - split.
    + intros [matched [after [-> H]]].
      apply denotes_gap in H. destruct H as [gap [m' [-> [Hg H]]]].
      apply denotes_literal in H. destruct H as [m'' [-> H]].
      exists gap, (m'' ++ after). rewrite !append_assoc.
      split; [reflexivity|]. split; [exact Hg|].
      apply IH. now exists m'', after.
    + intros [gap [after [-> [Hg H]]]].
      apply IH in H. destruct H as [m'' [after' [-> H]]].
      exists (gap ++ word ++ m''), after'. rewrite !append_assoc.
      split; [reflexivity|].
      apply denotes_gap. exists gap, (word ++ m'').
      split; [reflexivity|]. split; [exact Hg|].
      apply denotes_literal. now exists m''.
Qed.

(** Words joined by [.*] are found exactly in the texts that hold
    them in order, with stretches of one line between them. *)
Lemma search_words (words : list string) (text : string) :
  Re.search_items (items_of_words words) text = true
  <-> words_in_order words text.
Proof.
  rewrite search_items_denotes.
  destruct words as [|word rest]; cbn [items_of_words words_in_order].
  - split; [auto|]. intros _. exists "", "", text.
    split; [reflexivity | constructor].
  - split.
    + intros [before [matched [after [-> H]]]].
      apply denotes_literal in H. destruct H as [m' [-> H]].
      exists before, (m' ++ after). rewrite !append_assoc.
      split; [reflexivity|]. apply denotes_gaps_then. now exists m', after.
    + intros [before [after [-> H]]].
      apply denotes_gaps_then in H. destruct H as [m' [after' [-> H]]].
      exists before, (word ++ m'), after'. rewrite !append_assoc.
      split; [reflexivity|]. apply denotes_literal. now exists m'.
Qed.

(** X3.  What the five patterns of [detect_newsletter] look for: a
    pattern is found in a text exactly when the text holds its words in
    their order - "newsletter", "sign", "up" for the first, and so on -
    with any text between two of them that has no line feed.  The
    words need not stand alone, and a line feed between two of them
    hides the match. *)
Theorem patterns_find_their_words_on_one_line :
  Forall2 (fun pattern words =>
             forall text,
               Re.search pattern text = true <-> words_in_order words text)
    newsletter_patterns
    [["newsletter"; "sign"; "up"];
     ["subscribe"; "newsletter"];
     ["join"; "mailing"; "list"];
     ["email"; "subscription"];
     ["get"; "weekly"; "digest"]].
Proof.
  unfold newsletter_patterns.
  repeat (apply Forall2_cons;
          [intros text; unfold Re.search;
           match goal with
           | |- _ <-> words_in_order ?words _ =>
               change (Re.search_items (items_of_words words) text = true
                       <-> words_in_order words text)
           end; apply search_words|]).
  apply Forall2_nil.
Qed.

End MoreAppFacts.

(* ================================================================== *)
(** * Further properties of the registration bot *)

Module MoreRegisterFacts.

Import Py Soup Register PyFacts RegisterFacts MorePyFacts Csv Spec Examples.

(** ** [int] reads what [str] writes *)

Lemma parse_digits_step (c : ascii) (s : string) acc b d :
  Ascii.eqb c "_" = false -> digit_val c = Some d ->
  parse_digits acc b (String c s) = parse_digits (10 * acc + d)%Z true s.
Proof. intros H1 H2. cbn [parse_digits]. now rewrite H1, H2. Qed.

Lemma parse_digits_uint (d : Decimal.uint) :
  forall acc after_digit,
    d <> Decimal.Nil \/ after_digit = true ->
    parse_digits acc after_digit (NilEmpty.string_of_uint d)
    = Some (acc * 10 ^ Z.of_N (Unsigned.usize d)
            + Z.of_N (Unsigned.of_lu (Decimal.rev d)))%Z.
Proof.
  induction d as [|d IH|d IH|d IH|d IH|d IH|d IH|d IH|d IH|d IH|d IH];
    intros acc after_digit H;
    [destruct H as [H | ->]; [congruence|]; cbn; f_equal; lia|..];
    cbn [NilEmpty.string_of_uint];
    (erewrite parse_digits_step; [|reflexivity|vm_compute; reflexivity]);
    rewrite IH by (now right);
    match goal with
    | |- context [Decimal.rev (?D d)] =>
        change (Decimal.rev (D d)) with (Decimal.revapp d (D Decimal.Nil));
        rewrite (Unsigned.of_lu_revapp d (D Decimal.Nil))
    end;
    cbn [Unsigned.usize Unsigned.of_lu];
    rewrite N2Z.inj_succ, Z.pow_succ_r by lia;
    rewrite N2Z.inj_add, N2Z.inj_mul, N2Z.inj_pow;
    f_equal; cbn [Z.of_N N.add N.mul Pos.add Pos.mul]; ring.
Qed.

Lemma uint_string_plain (d : Decimal.uint) :
  Forall (fun c => is_space c = false)
         (list_ascii_of_string (NilEmpty.string_of_uint d)).
Proof.
  induction d; cbn [NilEmpty.string_of_uint list_ascii_of_string];
    constructor; auto.
Qed.

Lemma parse_uint_value (d : Decimal.uint) :
  d <> Decimal.Nil ->
  parse_digits 0 false (NilEmpty.string_of_uint d) = Some (Z.of_uint d).
Proof.
  intros Hd. rewrite parse_digits_uint by now left.
  unfold Z.of_uint. rewrite Unsigned.of_uint_alt. f_equal; lia.
Qed.

(** [int] reads back every integer [str] writes. *)
Lemma int_str_int (n : Z) : int (App.str_int n) = Some n.
Proof.
  unfold App.str_int.
  rewrite <- (DecimalZ.of_to n) at 2.
  destruct n as [|p|p]; [reflexivity| |]; cbn [Z.to_int].
  - pose proof (Unsigned.to_uint_nonnil p) as Hnil.
    pose proof (parse_uint_value _ Hnil) as Hval.
    pose proof (uint_string_plain (Pos.to_uint p)) as Hplain.
    unfold NilZero.string_of_int, NilZero.string_of_uint.
    destruct (Pos.to_uint p) as [|d|d|d|d|d|d|d|d|d|d] eqn:E; [congruence|..];
      unfold int; rewrite (strip_plain _ Hplain);
      cbn [NilEmpty.string_of_uint] in *; cbn [Z.of_int]; exact Hval.
  - pose proof (Unsigned.to_uint_nonnil p) as Hnil.
    pose proof (parse_uint_value _ Hnil) as Hval.
    pose proof (uint_string_plain (Pos.to_uint p)) as Hplain.
    unfold NilZero.string_of_int, NilZero.string_of_uint.
    assert (Hs : NilEmpty.string_of_uint (Pos.to_uint p)
                 = match Pos.to_uint p with
                   | Decimal.Nil => "0"
                   | _ => NilEmpty.string_of_uint (Pos.to_uint p)
                   end) by (destruct (Pos.to_uint p); [congruence|reflexivity..]).
    rewrite <- Hs. unfold int.
    rewrite strip_plain by (cbn [list_ascii_of_string]; constructor; auto).
    cbn [Z.of_int]. rewrite Hval. reflexivity.
Qed.

(** ** The scanner's file, read back *)

(** The row [append_csv] writes for a record. *)
Local Notation row_of_record nr :=
  [fst nr; App.Result.domain (snd nr); App.Result.url (snd nr);
   str_bool (App.Result.has_newsletter (snd nr));
   App.str_int (App.Result.confidence (snd nr));
   App.Result.signals (snd nr); App.Result.found_paths (snd nr)].

Lemma written_rows (records : list (string * App.Result.t)) :
  written records
  = (App.init_csv ++ map (fun nr => row_of_record nr) records)%list.
Proof.
  unfold written. generalize App.init_csv.
  induction records as [|nr records IH]; intros file; simpl.
  - now rewrite app_nil_r.
  - rewrite IH. unfold App.append_csv. now rewrite <- app_assoc.
Qed.

Lemma dict_reader_written (records : list (string * App.Result.t)) :
  dict_reader (written records)
  = map (fun nr =>
           combine ["timestamp"; "domain"; "url"; "has_newsletter";
                    "confidence_score"; "signals_found"; "found_newsletter_path"]
                   (row_of_record nr))
        records.
Proof.
  rewrite written_rows. unfold App.init_csv, dict_reader. simpl app.
  induction records as [|nr records IH]; simpl; [reflexivity|].
  f_equal. exact IH.
Qed.

Lemma collect_written (records : list (string * App.Result.t)) :
  forall acc,
    collect_sites (dict_reader (written records)) acc
    = Some (acc ++ map site_of_result
                     (filter (fun r => App.Result.has_newsletter r
                                       && (30 <=? App.Result.confidence r)%Z)
                             (map snd records)))%list.
Proof.
  rewrite dict_reader_written.
  induction records as [|[now r] records IH]; intros acc.
  - simpl. now rewrite app_nil_r.
  - cbn [map collect_sites fst snd filter].
    unfold qualifies, site_of_row.
    cbn [combine dict_get get_default String.eqb Ascii.eqb Bool.eqb].
    rewrite int_str_int.
    destruct (App.Result.has_newsletter r); cbn -[collect_sites int App.str_int].
    + destruct (30 <=? App.Result.confidence r)%Z.
      * rewrite IH, <- app_assoc. reflexivity.
      * apply IH.
    + apply IH.
Qed.

(** X10.  Reading the file the scanner wrote gives, up to the shuffle,
    exactly the records written with [has_newsletter] true and a
    confidence of 30 or more, each with its domain, URL, confidence and
    paths. *)
Theorem scanner_file_is_read_back records t :
  Permutation
    (fst (read_newsletter_sites (Some (dict_reader (written records))) t))
    (map site_of_result
       (filter (fun r => App.Result.has_newsletter r
                         && (30 <=? App.Result.confidence r)%Z)
               (map snd records))).
Proof.
  unfold read_newsletter_sites. rewrite collect_written. simpl app.
  apply shuffle3_perm.
Qed.
Section ScannerToBot.

Variable parse : string -> Node.
Variable World : Type.
Variable requests_get : string -> World -> App.GetOutcome * World.

(** X11.  A record the scanner returns is kept by the registration bot
    exactly when its [has_newsletter] is true: for the scanner's own
    records the second test, on the confidence, rejects nothing.  The
    paths the bot will try for it are paths of the scanner's list, the
    root among them. *)
Theorem positive_records_are_registered domain w result w' now :
  App.analyze_domain parse World requests_get domain w
  = (Some (Some result), w') ->
  collect_sites (dict_reader (written [(now, result)])) []
  = Some (if App.Result.has_newsletter result
          then [site_of_result result] else [])
  /\ In "/" (paths_to_try_of (App.Result.found_paths result))
  /\ incl (paths_to_try_of (App.Result.found_paths result)) App.paths_to_check.
Proof.
  intros H.
  destruct (MoreAppFacts.record_paths _ _ _ _ _ _ _ H)
    as [st [Hincl [[Hiff [Hpos Hsig]] [Hres [Hurl Hgap]]]]].
  split.
  - rewrite collect_written. cbn [map snd filter app].
    rewrite Hres. cbn [App.Result.has_newsletter App.Result.confidence].
    destruct (30 <=? App.max_confidence st)%Z; reflexivity.
  - rewrite Hres. cbn [App.Result.found_paths].
    destruct (App.found_paths st) as [|p ps] eqn:E.
    + cbn. split; [now left|]. intros x [<-|[]]. now left.
    + assert (Hne : join ";" (sorted (p :: ps)) <> "")
        by (apply MoreAppFacts.joined_paths_not_empty; [exact Hincl | discriminate]).
      assert (Hsplit : split ";" (join ";" (sorted (p :: ps))) = sorted (p :: ps)).
      { apply split_join.
        - intros Hs. apply (proj1 (sorted_nil_iff _)) in Hs. discriminate.
        - apply sorted_Forall. apply Forall_forall. intros x Hx.
          apply Hincl in Hx. cbn in Hx.
          destruct Hx as [<-|[<-|[<-|[<-|[<-|[]]]]]]; reflexivity. }
      assert (Hsorted : incl (sorted (p :: ps)) App.paths_to_check).
      { intros x Hx. apply Hincl.
        apply (Permutation_in _ (sorted_perm (p :: ps)) Hx). }
      unfold paths_to_try_of.
      destruct (join ";" (sorted (p :: ps))) as [|ch rest] eqn:J; [congruence|].
      cbn [truthy]. rewrite Hsplit.
      destruct (sorted (p :: ps)) as [|q qs] eqn:S.
      * split; [now left|]. intros x [<-|[]]. now left.
      * destruct (mem "/" (q :: qs)) eqn:M; cbn [negb].
        -- split; [now apply mem_iff | exact Hsorted].
        -- split; [now left|].
           intros x [<-|Hx]; [now left | now apply Hsorted].
Qed.

End ScannerToBot.

(** ** [read_newsletter_sites] *)

Lemma qualifies_confidence (row : dict string) (site : Site.t) :
  qualifies row = Some true -> site_of_row row = Some site ->
  (30 <= Site.confidence site)%Z.
Proof.
  unfold qualifies, site_of_row.
  destruct (mem _ _); [|discriminate].
  destruct (match dict_get row "confidence_score" with
            | Some s => int s
            | None => Some 0%Z
            end) as [c|]; [|discriminate].
  intros Hq. injection Hq as Hq. apply Z.leb_le in Hq.
  destruct (dict_get row "domain"); [|discriminate].
  destruct (dict_get row "url"); [|discriminate].
  intros Hs. injection Hs as <-. exact Hq.
Qed.

Lemma collect_sites_Forall (P : Site.t -> Prop) (rows : list (dict string)) :
  (forall row site,
      In row rows -> qualifies row = Some true -> site_of_row row = Some site ->
      P site) ->
  forall acc sites,
    collect_sites rows acc = Some sites -> Forall P acc -> Forall P sites.
Proof.
  induction rows as [|row rest IH]; intros Hrows acc sites; simpl.
  - intros H; now injection H as <-.
  - destruct (qualifies row) as [[|]|] eqn:Q; try discriminate.
    + destruct (site_of_row row) as [site|] eqn:S; [|discriminate].
      intros H Hacc. apply (IH (fun r s Hr => Hrows r s (or_intror Hr)) _ _ H).
      apply Forall_app. split; [exact Hacc|].
      constructor; [|constructor].
      apply (Hrows row site); [now left | exact Q | exact S].
    + intros H Hacc. apply (IH (fun r s Hr => Hrows r s (or_intror Hr)) _ _ H Hacc).
Qed.

Lemma collect_sites_bad_row (rows : list (dict string)) :
  (exists row,
      In row rows
      /\ (qualifies row = None
          \/ (qualifies row = Some true /\ site_of_row row = None))) ->
  forall acc, collect_sites rows acc = None.
Proof.
  induction rows as [|row rest IH]; intros [bad [Hin Hbad]] acc; [contradiction|].
  simpl. destruct Hin as [->|Hin].
  - destruct Hbad as [-> | [-> ->]]; reflexivity.
  - destruct (qualifies row) as [[|]|]; auto.
    + destruct (site_of_row row); auto.
      apply IH. exists bad. auto.
    + apply IH. exists bad. auto.
Qed.

(** X12.  Every site [read_newsletter_sites] returns has a confidence of
    30 or more.  Without the input file nothing is returned and the
    random generator is not used; and one flagged row whose confidence
    is not a number, or that lacks its domain or URL, makes the function
    return nothing at all, good rows included. *)
Theorem sites_read_are_classified file t :
  Forall (fun site => (30 <= Site.confidence site)%Z)
         (fst (read_newsletter_sites file t))
  /\ (file = None -> read_newsletter_sites file t = ([], t))
  /\ (forall rows,
        file = Some rows ->
        (exists row,
            In row rows
            /\ (qualifies row = None
                \/ (qualifies row = Some true /\ site_of_row row = None))) ->
        read_newsletter_sites file t = ([], t)).
Proof.
  split; [|split].
  - unfold read_newsletter_sites. destruct file as [rows|]; [|constructor].
    destruct (collect_sites rows []) as [sites|] eqn:C; [|constructor].
    apply Forall_forall. intros site Hsite.
    apply (Permutation_in _ (shuffle3_perm sites t)) in Hsite.
    assert (HF : Forall (fun s => (30 <= Site.confidence s)%Z) sites).
    { apply (collect_sites_Forall _ rows) with (acc := []); [|exact C|constructor].
      intros row s _ Hq Hs. apply (qualifies_confidence row s Hq Hs). }
    rewrite Forall_forall in HF. now apply HF.
  - now intros ->.
  - intros rows -> Hbad. unfold read_newsletter_sites.
    now rewrite (collect_sites_bad_row rows Hbad).
Qed.

(** ** [load_emails] *)

(** X13.  Every address [load_emails] returns is a line of the file
    without the white space around it, and is not empty; there are as
    many addresses as lines that are not blank.  Without the file the
    list is empty. *)
Theorem loaded_addresses_are_clean file t :
  Forall (fun email =>
            email <> "" /\ strip email = email
            /\ exists lines line,
                 file = Some lines /\ In line lines /\ email = strip line)
         (fst (load_emails file t))
  /\ (forall lines,
        file = Some lines ->
        length (fst (load_emails file t))
        = length (filter (fun line => truthy (strip line)) lines))
  /\ (file = None -> load_emails file t = ([], t)).
Proof.
  split; [|split].
  - destruct file as [lines|]; [|constructor].
    apply Forall_forall. intros email Hin. cbn [load_emails] in Hin.
    apply (Permutation_in _ (shuffle3_perm (stripped_lines lines) t)) in Hin.
    unfold stripped_lines in Hin. apply in_map_iff in Hin.
    destruct Hin as [line [<- Hline]]. apply filter_In in Hline.
    destruct Hline as [Hline Htruthy].
    split; [now destruct (strip line)|]. split; [apply strip_idem|].
    exists lines, line. auto.
  - intros lines ->. cbn [load_emails].
    rewrite (Permutation_length (shuffle3_perm (stripped_lines lines) t)).
    unfold stripped_lines. apply length_map.
  - now intros ->.
Qed.
(** The record of the domain whose best page is [/subscribe]. *)
Lemma positive_records_are_registered_witness :
  exists result w',
    App.analyze_domain parse_pages nat (scripted late_success) "example.org" 0
    = (Some (Some result), w')
    /\ collect_sites
         (dict_reader (written [("2024-01-01T00:00:00", result)])) []
       = Some [site_of_result result]
    /\ In "/" (paths_to_try_of (App.Result.found_paths result)).
Proof.
  eexists. eexists. split; [vm_compute; reflexivity|].
  destruct (positive_records_are_registered parse_pages nat (scripted late_success)
              "example.org" 0 _ _ "2024-01-01T00:00:00" eq_refl)
    as [Hread [Hroot _]].
  split; [exact Hread | exact Hroot].
Defined.

(** ** [find_newsletter_form] *)

Lemma form_data_of_None urljoin url form :
  form_data_of urljoin url form = None
  <-> email_inputs_of form = []
      \/ any_in newsletter_keywords (lower (render form)) = false.
Proof.
  unfold form_data_of.
  destruct (email_inputs_of form) as [|inp rest].
  - split; auto.
  - destruct (any_in newsletter_keywords (lower (render form))).
    + split; [discriminate | intros [H|H]; discriminate].
    + split; auto.
Qed.

Lemma first_form_split urljoin url forms fd :
  first_form urljoin url forms = Some fd ->
  exists before form after,
    forms = (before ++ form :: after)%list
    /\ Forall (fun f => form_data_of urljoin url f = None) before
    /\ form_data_of urljoin url form = Some fd.
Proof.
  induction forms as [|form forms IH]; simpl; [discriminate|].
  destruct (form_data_of urljoin url form) as [fd'|] eqn:E.
  - intros H. injection H as ->. exists [], form, forms. auto.
  - intros H. destruct (IH H) as [before [f [after [-> [Hb Hf]]]]].
    exists (form :: before), f, after. split; [reflexivity|]. auto.
Qed.

Lemma first_form_None urljoin url forms :
  first_form urljoin url forms = None
  <-> Forall (fun f => form_data_of urljoin url f = None) forms.
Proof.
  induction forms as [|form forms IH]; simpl.
  - split; auto.
  - destruct (form_data_of urljoin url form) eqn:E.
    + split; [discriminate | intros H; inversion H; congruence].
    + rewrite IH. split; [intros H; now constructor | intros H; now inversion H].
Qed.

(** X14.  [find_newsletter_form] returns nothing exactly when every form
    of the page lacks an email input or lacks a newsletter keyword in
    its markup (a page without forms among them).  A descriptor it
    returns is built from the first form, in document order, that has
    both; later forms are not looked at. *)
Theorem first_qualifying_form_wins urljoin soup url :
  (find_newsletter_form urljoin soup url = None
   <-> Forall (fun form =>
                 email_inputs_of form = []
                 \/ any_in newsletter_keywords (lower (render form)) = false)
              (find_all ["form"] [] soup))
  /\ (forall fd,
        find_newsletter_form urljoin soup url = Some fd ->
        exists before form after,
          find_all ["form"] [] soup = (before ++ form :: after)%list
          /\ Forall (fun f =>
                       email_inputs_of f = []
                       \/ any_in newsletter_keywords (lower (render f)) = false)
                    before
          /\ email_inputs_of form <> []
          /\ any_in newsletter_keywords (lower (render form)) = true
          /\ form_data_of urljoin url form = Some fd).
Proof.
  unfold find_newsletter_form. split.
  - rewrite first_form_None. split; intros H; eapply Forall_impl; try exact H;
      intros f Hf; cbv beta in *;
      [apply (proj1 (form_data_of_None urljoin url f) Hf)
      |apply (proj2 (form_data_of_None urljoin url f) Hf)].
  - intros fd H. apply first_form_split in H.
    destruct H as [before [form [after [Hforms [Hbefore Hform]]]]].
    exists before, form, after. split; [exact Hforms|]. split.
    + eapply Forall_impl; [|exact Hbefore]. intros f Hf.
      apply (proj1 (form_data_of_None urljoin url f) Hf).
    + destruct (email_inputs_of form) as [|inp rest] eqn:E.
      * unfold form_data_of in Hform. now rewrite E in Hform.
      * destruct (any_in newsletter_keywords (lower (render form))) eqn:K.
        -- repeat split; [discriminate | exact Hform].
        -- unfold form_data_of in Hform. now rewrite E, K in Hform.
Qed.

(** ** [fields] *)

Lemma dict_get_set {V : Type} (d : dict V) (k k0 : string) (v : V) :
  dict_get (dict_set d k v) k0
  = if String.eqb k0 k then Some v else dict_get d k0.
Proof.
  induction d as [|[k' v'] d IH]; simpl.
  - reflexivity.
  - destruct (String.eqb k k') eqn:E; simpl.
    + apply String.eqb_eq in E. subst k'.
      destruct (String.eqb k0 k); reflexivity.
    + destruct (String.eqb k0 k') eqn:E0.
      * apply String.eqb_eq in E0. subst k'.
        rewrite String.eqb_sym, E. reflexivity.
      * exact IH.
Qed.

Lemma fold_field_step_origin (controls : list Node) :
  forall fields k v,
    dict_get (fold_left field_step controls fields) k = Some v ->
    dict_get fields k = Some v
    \/ exists inp,
         In inp controls
         /\ get_opt inp "name" = Some k /\ k <> ""
         /\ mem (lower (get inp "type" "")) ["submit"; "button"] = false
         /\ v = get inp "value" "".
Proof.
  induction controls as [|inp rest IH]; intros fields k v; simpl; [auto|].
  intros H. apply IH in H. destruct H as [H | [c [Hc Hrest]]].
  - unfold field_step in H.
    destruct (get_opt inp "name") as [name|] eqn:N; [|now left].
    destruct (truthy name) eqn:T; [|now left].
    destruct (mem (lower (get inp "type" "")) ["submit"; "button"]) eqn:M; [now left|].
    rewrite dict_get_set in H.
    destruct (String.eqb k name) eqn:E; [|now left].
    apply String.eqb_eq in E. subst name. injection H as <-.
    right. exists inp. split; [now left|].
    repeat split; auto. intros ->. discriminate.
  - right. exists c. split; [now right | exact Hrest].
Qed.

(** X15.  The keys of [fields] are exactly the non-empty names of the
    inputs and text areas of the form that are not of type [submit] or
    [button] (in any case of letters); the value under a key is the
    [value] attribute of such a control, or the empty string. *)
Theorem fields_hold_the_named_controls form k :
  (has_key (collect_fields form) k = true
   <-> exists inp,
         In inp (find_all ["input"; "textarea"] [] form)
         /\ get_opt inp "name" = Some k /\ k <> ""
         /\ mem (lower (get inp "type" "")) ["submit"; "button"] = false)
  /\ (forall v,
        dict_get (collect_fields form) k = Some v ->
        exists inp,
          In inp (find_all ["input"; "textarea"] [] form)
          /\ get_opt inp "name" = Some k
          /\ v = get inp "value" "").
Proof.
  unfold collect_fields. split; [split|].
  - unfold has_key.
    destruct (dict_get (fold_left field_step _ []) k) as [v|] eqn:G; [|discriminate].
    intros _. apply fold_field_step_origin in G.
    destruct G as [G | [inp [Hin [Hn [Hk [Hm _]]]]]]; [discriminate|].
    exists inp. auto.
  - intros [inp [Hin [Hn [Hk Hm]]]].
    revert Hin. generalize (find_all ["input"; "textarea"] [] form).
    generalize (@nil (string * string)).
    intros fields controls. revert fields.
    induction controls as [|c rest IH]; intros fields Hin; [contradiction|].
    simpl. destruct Hin as [->|Hin]; [|now apply IH].
    apply fold_field_step_mono.
    unfold field_step. rewrite Hn, Hm.
    destruct k; [congruence|]. cbn [truthy]. apply has_key_set.
  - intros v G. apply fold_field_step_origin in G.
    destruct G as [G | [inp [Hin [Hn [_ [_ Hv]]]]]]; [discriminate|].
    exists inp. auto.
Qed.

(** ** [paths_to_try] *)

(** X16.  The root path is always among the paths tried.  The paths given
    are tried in the order given; when the root is not among them, or
    none is given, it is tried first. *)
Theorem root_is_always_tried paths :
  let given := if truthy paths then split ";" paths else [] in
  In "/" (paths_to_try_of paths)
  /\ ((In "/" given /\ paths_to_try_of paths = given)
      \/ (~ In "/" given /\ paths_to_try_of paths = "/" :: given))
  /\ (paths = "" -> paths_to_try_of paths = ["/"]).
Proof.
  cbv zeta. unfold paths_to_try_of.
  destruct (if truthy paths then split ";" paths else []) as [|p ps] eqn:G.
  - split; [now left|]. split; [right; split; auto | reflexivity].
  - destruct (mem "/" (p :: ps)) eqn:M; cbn [negb].
    + apply mem_iff in M. split; [exact M|]. split; [left; auto|].
      intros ->. discriminate.
    + assert (Hn : ~ In "/" (p :: ps))
        by (intros Hin; apply mem_iff in Hin; congruence).
      split; [now left|]. split; [right; auto|].
      intros ->. discriminate.
Qed.

(** ** The counters of [run] *)

Section MoreRunFacts.

Variable parse : string -> Node.
Variable urljoin : string -> string -> string.
Variable urlparse : string -> option (string * string).
Variable World : Type.
Variable send : Request -> World -> option Response * World.
Variable strftime : World -> string.
Variable disk : World -> WriteOutcome * World.

Local Notation process_site :=
  (Register.process_site parse urljoin urlparse World send strftime disk).
Local Notation process_sites :=
  (Register.process_sites parse urljoin urlparse World send strftime disk).
Local Notation run :=
  (Register.run parse urljoin urlparse World send strftime disk).


Lemma process_sites_no_address sites st w :
  process_sites [] sites st w = (st, w).
Proof. now destruct sites. Qed.

(** X18.  Without the email file, with an email file of blank lines only,
    or without the scanner's file, a run sends nothing, writes nothing
    and counts nothing. *)
Theorem nothing_without_input emails_file input_csv output t w :
  emails_file = None
  \/ (exists lines,
         emails_file = Some lines /\ Forall (fun line => strip line = "") lines)
  \/ input_csv = None ->
  run emails_file input_csv output t w = (run_init output, w).
Proof.
  unfold Register.run. intros [-> | [[lines [-> Hblank]] | ->]].
  - cbn [load_emails].
    destruct (read_newsletter_sites input_csv t) as [sites t1].
    apply process_sites_no_address.
  - assert (Hnone : stripped_lines lines = []).
    { unfold stripped_lines.
      induction lines as [|line rest IH]; [reflexivity|].
      inversion Hblank as [|? ? Hline Hrest]; subst.
      cbn [filter]. rewrite Hline. cbn [truthy]. now apply IH. }
    cbn [load_emails]. rewrite Hnone. cbn.
    destruct (read_newsletter_sites input_csv t) as [sites t1].
    apply process_sites_no_address.
  - destruct (load_emails emails_file t) as [emails t1].
    reflexivity.
Qed.

End MoreRunFacts.


(** No email file: nothing happens. *)
Lemma nothing_without_input_witness :
  run form_parser same_url split_url nat (answering "Thank you!") wall_clock
    disk_ok None (Some two_rows) [] [0; 0; 0] 0
  = (run_init [], 0).
Proof.
  apply nothing_without_input. left. reflexivity.
Defined.

(** ** The requests of [register_to_newsletter] *)

Section Requests.

Variable parse : string -> Node.
Variable urljoin : string -> string -> string.
Variable urlparse : string -> option (string * string).
Variable World : Type.
Variable send : Request -> World -> option Response * World.

Local Notation try_path :=
  (Register.try_path parse urljoin urlparse World send).
Local Notation try_paths :=
  (Register.try_paths parse urljoin urlparse World send).
Local Notation register_to_newsletter :=
  (Register.register_to_newsletter parse urljoin urlparse World send).
Local Notation Log := (list (Request * option Response)).
Local Notation logged_try_path :=
  (Register.try_path parse urljoin urlparse (Log * World) (logged World send)).
Local Notation logged_try_paths :=
  (Register.try_paths parse urljoin urlparse (Log * World) (logged World send)).
Local Notation logged_register :=
  (Register.register_to_newsletter parse urljoin urlparse
     (Log * World) (logged World send)).

(** A request for the page of a path, a request that carries the
    address, and the submission of a form. *)
Local Notation page_request url path request :=
  (exists scheme netloc,
      urlparse url = Some (scheme, netloc)
      /\ request = GET ((scheme ++ "://" ++ netloc) ++ path) []).
Local Notation carries email request :=
  (exists field, dict_get (carried request) field = Some email).
Local Notation submission form_data email :=
  (if String.eqb (FormData.method form_data) "get"
   then GET (FormData.action form_data)
          (dict_set (FormData.fields form_data) (FormData.email_field form_data)
             email)
   else POST (FormData.action form_data)
          (dict_set (FormData.fields form_data) (FormData.email_field form_data)
             email)).

(** The call returned what the reply [reply] to the submission of the
    form of the page [page] of [path] tells; these two are the last
    requests of [new]. *)
Local Notation answered url email path new result :=
  (exists before scheme netloc page form_data reply,
      urlparse url = Some (scheme, netloc)
      /\ new = app before
                 [(GET ((scheme ++ "://" ++ netloc) ++ path) [], Some page);
                  (submission form_data email, Some reply)]
      /\ (status_code page < 400)%Z
      /\ find_newsletter_form urljoin (parse (r_text page))
           ((scheme ++ "://" ++ netloc) ++ path) = Some form_data
      /\ result = classify_response (lower (r_text reply))).

(** No request that carries the address was answered. *)
Local Notation unanswered email new :=
  (Forall (fun e : Request * option Response =>
             carries email (fst e) -> snd e = None) new).

Lemma page_carries_nothing (email url : string) :
  ~ carries email (GET url []).
Proof. intros [field H]. discriminate H. Qed.

Lemma submission_carries (form_data : FormData.t) (email : string) :
  carries email (submission form_data email).
Proof.
  exists (FormData.email_field form_data).
  assert (Hf : dict_get (dict_set (FormData.fields form_data)
                           (FormData.email_field form_data) email)
                 (FormData.email_field form_data) = Some email)
    by (rewrite dict_get_set; now rewrite String.eqb_refl).
  now destruct (String.eqb (FormData.method form_data) "get").
Qed.

Lemma try_path_logged url email path bound log w :
  exists new,
    logged_try_path url email path bound (log, w)
    = (fst (try_path url email path bound w),
       ((log ++ new)%list, snd (try_path url email path bound w)))
    /\ length new <= 2
    /\ Forall (fun e : Request * option Response =>
                 page_request url path (fst e) \/ carries email (fst e)) new
    /\ (urlparse url = None -> new = [])
    /\ (forall result,
          fst (fst (try_path url email path bound w)) = Returns result ->
          answered url email path new result)
    /\ (fst (fst (try_path url email path bound w)) = Continues ->
        unanswered email new).
Proof.
  unfold Register.try_path.
  destruct (urlparse url) as [[scheme netloc]|] eqn:U.
  2:{ exists []. cbn [fst snd]. rewrite app_nil_r.
      split; [reflexivity|]. split; [cbn; lia|]. split; [constructor|].
      split; [reflexivity|]. split; [|constructor].
      intros result H. now destruct bound. }
  cbv zeta. unfold logged at 1. cbn [fst snd].
  set (full_url := (scheme ++ "://" ++ netloc) ++ path).
  assert (Hquiet : forall reply, unanswered email [(GET full_url [], reply)]).
  { intros reply. constructor; [|constructor].
    intros H. now apply page_carries_nothing in H. }
  destruct (send (GET full_url []) w) as [[page|] w1] eqn:S1.
  2:{ exists [(GET full_url [], None)]. cbn [fst snd].
      split; [reflexivity|]. split; [cbn; lia|]. split; [constructor; [left; now exists scheme, netloc | constructor]|].
      split; [discriminate|]. split; [discriminate|]. intros _. apply Hquiet. }
  destruct (400 <=? status_code page)%Z eqn:Hstatus.
  { exists [(GET full_url [], Some page)]. cbn [fst snd].
    split; [reflexivity|]. split; [cbn; lia|]. split; [constructor; [left; now exists scheme, netloc | constructor]|].
    split; [discriminate|]. split; [discriminate|]. intros _. apply Hquiet. }
  destruct (find_newsletter_form urljoin (parse (r_text page)) full_url)
    as [form_data|] eqn:Hform.
  2:{ exists [(GET full_url [], Some page)]. cbn [fst snd].
      split; [reflexivity|]. split; [cbn; lia|]. split; [constructor; [left; now exists scheme, netloc | constructor]|].
      split; [discriminate|]. split; [discriminate|]. intros _. apply Hquiet. }
  unfold logged. cbn [fst snd].
  pose proof (submission_carries form_data email) as Hcarries.
  destruct (send (submission form_data email) w1) as [[reply|] w2] eqn:S2;
    [exists [(GET full_url [], Some page); (submission form_data email, Some reply)]
    |exists [(GET full_url [], Some page); (submission form_data email, None)]];
    cbn [fst snd]; rewrite <- app_assoc; cbn [app length];
    (split; [reflexivity|]); (split; [lia|]);
    (split; [constructor; [left; now exists scheme, netloc
                          |constructor; [now right | constructor]]|]);
    (split; [discriminate|]); split.
  - intros result H. injection H as <-.
    exists [], scheme, netloc, page, form_data, reply.
    split; [reflexivity|]. split; [reflexivity|].
    split; [apply Z.leb_gt in Hstatus; exact Hstatus|].
    split; [exact Hform | reflexivity].
  - discriminate.
  - discriminate.
  - intros _. constructor; [|constructor; [reflexivity | constructor]].
    intros H. now apply page_carries_nothing in H.
Qed.

Lemma try_paths_logged url email paths :
  forall bound log w,
    exists new,
      logged_try_paths url email paths bound (log, w)
      = (fst (try_paths url email paths bound w),
         ((log ++ new)%list, snd (try_paths url email paths bound w)))
      /\ length new <= 2 * length paths
      /\ Forall (fun e : Request * option Response =>
                   (exists path, In path paths /\ page_request url path (fst e))
                   \/ carries email (fst e)) new
      /\ (urlparse url = None -> new = [])
      /\ (forall result,
            fst (try_paths url email paths bound w) = Some result ->
            (result = (false, "Failed - no working form found")
             /\ unanswered email new)
            \/ exists path, In path paths /\ answered url email path new result).
Proof.
  induction paths as [|path rest IH]; intros bound log w.
  - exists []. cbn. rewrite app_nil_r.
    split; [reflexivity|]. split; [lia|]. split; [constructor|].
    split; [reflexivity|].
    intros result H. injection H as <-. left. split; [reflexivity | constructor].
  - cbn [Register.try_paths].
    destruct (try_path_logged url email path bound log w)
      as [new1 [Hrun [Hlen [Hall [Hnone [Hret Hcont]]]]]].
    rewrite Hrun.
    assert (Hall1 : Forall (fun e : Request * option Response =>
                              (exists p, In p (path :: rest)
                                         /\ page_request url p (fst e))
                              \/ carries email (fst e)) new1).
    { eapply Forall_impl; [|exact Hall].
      intros e [Hpage | Hc]; [left; exists path; split; [now left | exact Hpage]
                             | now right]. }
    destruct (try_path url email path bound w) as [[[result| |] bound1] w1];
      cbn [fst snd] in *.
    + exists new1. split; [reflexivity|]. split; [cbn [length]; lia|].
      split; [exact Hall1|]. split; [exact Hnone|].
      intros result' H. injection H as <-.
      right. exists path. split; [now left | now apply Hret].
    + destruct (IH bound1 (log ++ new1)%list w1)
        as [new2 [Hrun2 [Hlen2 [Hall2 [Hnone2 Hres2]]]]].
      exists (new1 ++ new2)%list. rewrite Hrun2, app_assoc.
      split; [reflexivity|]. split; [rewrite length_app; cbn [length]; lia|].
      split; [|split].
      * apply Forall_app. split; [exact Hall1|].
        eapply Forall_impl; [|exact Hall2].
        intros e [[p [Hp Hpage]] | Hc];
          [left; exists p; split; [now right | exact Hpage] | now right].
      * intros U. now rewrite Hnone, Hnone2.
      * intros result H. destruct (Hres2 result H)
          as [[-> Hquiet] | [p [Hp Hans]]].
        -- left. split; [reflexivity|].
           apply Forall_app. split; [now apply Hcont | exact Hquiet].
        -- right. exists p. split; [now right|].
           destruct Hans
             as [before [scheme [netloc [page [form_data [reply [U [-> Hrest]]]]]]]].
           exists (new1 ++ before)%list, scheme, netloc, page, form_data, reply.
           split; [exact U|]. split; [now rewrite app_assoc | exact Hrest].
    + exists new1. split; [reflexivity|]. split; [cbn [length]; lia|].
      split; [exact Hall1|]. split; [exact Hnone|]. discriminate.
Qed.

(** X19.  The requests one call of [register_to_newsletter] sends, seen
    through a network that keeps the list of the requests with their
    replies (which changes neither what the call does nor the world).
    Each request is either the plain page of one of the paths tried, or
    a request that carries the address in one of its fields; there are
    at most two for each path.  When [urlparse] does not take the URL
    the call raises and sends nothing; otherwise it returns.  What it
    returns is either "no working form found", and then no request
    carrying the address was answered, or the classification of the
    lower-cased body of the reply to its last request: the submission,
    with the address in its email field, of the form found on the page
    fetched just before, sent with GET when the method of the form is
    "get" and with POST otherwise. *)
Theorem requests_of_a_registration url email paths log w :
  exists new,
    logged_register url email paths (log, w)
    = (fst (register_to_newsletter url email paths w),
       ((log ++ new)%list, snd (register_to_newsletter url email paths w)))
    /\ length new <= 2 * length (paths_to_try_of paths)
    /\ Forall (fun e : Request * option Response =>
                 (exists path,
                     In path (paths_to_try_of paths)
                     /\ page_request url path (fst e))
                 \/ carries email (fst e)) new
    /\ (urlparse url = None ->
        fst (register_to_newsletter url email paths w) = None /\ new = [])
    /\ (urlparse url <> None ->
        exists result, fst (register_to_newsletter url email paths w) = Some result)
    /\ (forall result,
          fst (register_to_newsletter url email paths w) = Some result ->
          (result = (false, "Failed - no working form found")
           /\ unanswered email new)
          \/ exists path,
               In path (paths_to_try_of paths)
               /\ answered url email path new result).
Proof.
  destruct (try_paths_logged url email (paths_to_try_of paths) false log w)
    as [new [Hrun [Hlen [Hall [Hnone Hres]]]]].
  exists new. unfold Register.register_to_newsletter at 1.
  split; [exact Hrun|]. split; [exact Hlen|]. split; [exact Hall|].
  split; [|split].
  - intros U. split; [|now apply Hnone].
    now rewrite (register_raises parse urljoin urlparse World send _ _ _ _ U).
  - intros U.
    exact (try_paths_parsed parse urljoin urlparse World send url email
             (paths_to_try_of paths) U false w).
  - exact Hres.
Qed.

End Requests.

(** A page with a form and a reply "Thank you!" to its submission:
    two requests, the page of the root path and the form sent with
    POST, and the call returns the classification of the reply. *)
Lemma recorded_registration_example :
  Register.register_to_newsletter form_parser same_url split_url
    (list (Request * option Response) * nat) (logged nat (answering "Thank you!"))
    "https://a.example/" "one@mail.example" "/" ([], 0)
  = (Some Confirmed,
     ([(GET "https://site.example/" [],
        Some {| status_code := 200; r_text := "Thank you!" |});
       (POST "https://site.example/" [("user_email", "one@mail.example")],
        Some {| status_code := 200; r_text := "Thank you!" |})], 2)).
Proof. vm_compute. reflexivity. Qed.

End MoreRegisterFacts.
